(** * OpBoxSerialLibrary: the framed serial protocol of the OpBox sketches

    A shallow embedding of [OpBoxSerialLibrary.h]: the handshake, the packet
    writers ([SerialSend...]) and the packet reader
    ([SerialReceiveAndParsePacket]), followed by the properties of the
    protocol that hold (or fail) on that code.

    Conventions of the embedding.
    - An [int] or [unsigned long] is a [Z].  An [unsigned long] parameter is
      reduced modulo 2^32 where the function receives it, [Serial.write] of a
      number keeps its low eight bits (the [uint8_t] overload), and the
      conversion [char(inByte)] keeps the low eight bits as well: a [char] is
      represented by its 8-bit pattern, a number in 0..255.
    - A [char text[]] argument is the list of the chars found at the pointer;
      [Serial.write(text)] sends the chars before the first NUL.
    - A [char buffer[]] that the reader fills is the memory found at the
      pointer, a function from index to char.  The code indexes it without
      looking at any capacity, and so does the model.
    - The receiving side of the port is the list of what the successive polls
      of [Serial.available()] will see: [None] when nothing is available at
      that poll, [Some b] when byte [b] is at the head of the receive buffer
      (it stays there until [Serial.read()] takes it).  When the list is used
      up the function is still polling: the model stops with a "waiting"
      outcome.
    - The sending side is the list of the bytes written so far; [delay] and
      [Serial.flush] do not change it.
    - The two lengths of the reader are [int]s that only count up from 0;
      they are kept as unbounded [Z] (an [int] of 16 bits wraps after 32767
      accumulated bytes, far past any buffer the callers pass). *)

From Stdlib Require Import ZArith List Bool Lia String Ascii.
Import ListNotations.
Open Scope Z_scope.

(** ** Characters *)

Definition chr (a : ascii) : Z := Z.of_N (N_of_ascii a).

Definition chars (s : string) : list Z := map chr (list_ascii_of_string s).

Definition char (i : Z) : Z := i mod 256.

Definition uint8 (i : Z) : Z := i mod 256.

Definition ulong (i : Z) : Z := i mod 2 ^ 32.

Definition is_char (c : Z) : Prop := 0 <= c < 256.

(** The chars of a C string: those before the first NUL. *)
Fixpoint cstr (text : list Z) : list Z :=
  match text with
  | [] => []
  | c :: rest => if c =? 0 then [] else c :: cstr rest
  end.

(** ** Packet markers *)

Definition PACKET_START : Z := chr "<".
Definition PACKET_INT : Z := chr "|".
Definition PACKET_INT2 : Z := chr "~".
Definition PACKET_CHAR : Z := chr "@".
Definition PACKET_END : Z := chr ">".
Definition MAX_BUFFER : Z := 100.

(** ** The sending side of the port *)

Definition cmd : Type := list Z -> list Z.

Definition andthen (c1 c2 : cmd) : cmd := fun tx => c2 (c1 tx).

Notation "c1 ;; c2" := (andthen c1 c2) (at level 61, right associativity).

Definition Serial_write (b : Z) : cmd := fun tx => tx ++ [uint8 b].

Definition Serial_write_str (text : list Z) : cmd := fun tx => tx ++ cstr text.

Definition Serial_flush : cmd := fun tx => tx.

(** ** Writers *)

Definition SerialWriteLongInt (val : Z) : cmd :=
  let val := ulong val in
  Serial_write (Z.land (Z.shiftr val 24) 255) ;;
  Serial_write (Z.land (Z.shiftr val 16) 255) ;;
  Serial_write (Z.land (Z.shiftr val 8) 255) ;;
  Serial_write (Z.land val 255).

Definition SerialSendInt (text : list Z) (ts : Z) : cmd :=
  Serial_write PACKET_START ;;
  Serial_write_str text ;;
  Serial_write PACKET_INT ;;
  SerialWriteLongInt ts ;;
  Serial_write PACKET_END ;;
  Serial_flush.

Definition SerialSendIntPair (text : list Z) (int1 int2 : Z) : cmd :=
  Serial_write PACKET_START ;;
  Serial_write_str text ;;
  Serial_write PACKET_INT2 ;;
  SerialWriteLongInt int1 ;;
  SerialWriteLongInt int2 ;;
  Serial_write PACKET_END ;;
  Serial_flush.

Definition SerialSendChar (text : list Z) (data : Z) : cmd :=
  Serial_write PACKET_START ;;
  Serial_write_str text ;;
  Serial_write PACKET_CHAR ;;
  Serial_write data ;;
  Serial_write PACKET_END ;;
  Serial_flush.

Definition SerialSendCharPair (text : list Z) (char1 char2 : Z) : cmd :=
  Serial_write PACKET_START ;;
  Serial_write_str text ;;
  Serial_write PACKET_CHAR ;;
  Serial_write char1 ;;
  Serial_write char2 ;;
  Serial_write PACKET_END ;;
  Serial_flush.

Definition SerialSendErrorText (text : list Z) : cmd :=
  Serial_write PACKET_START ;;
  Serial_write_str (chars "Err") ;;
  Serial_write PACKET_CHAR ;;
  Serial_write_str text ;;
  Serial_write PACKET_END ;;
  Serial_flush.

Definition SerialSendErrorNumAsText (num_data : Z) : cmd :=
  Serial_write PACKET_START ;;
  Serial_write_str (chars "Err") ;;
  Serial_write PACKET_CHAR ;;
  Serial_write num_data ;;
  Serial_write PACKET_END ;;
  Serial_flush.

(** ** Handshake *)

Inductive handshake_outcome : Type :=
| Shaken (rx : list (option Z)) (tx : list Z)
| Knocking (tx : list Z).

(** One poll per element of [rx]: nothing available sends an ['A'] and
    waits; a byte is read and compared with ['P']. *)
Fixpoint SerialHandshake (rx : list (option Z)) (tx : list Z)
  : handshake_outcome :=
  match rx with
  | [] => Knocking tx
  | None :: rx' => SerialHandshake rx' (Serial_write (chr "A") tx)
  | Some inByte :: rx' =>
      if inByte =? chr "P" then Shaken rx' tx else SerialHandshake rx' tx
  end.

(** ** The packet reader *)

Definition store (m : Z -> Z) (i v : Z) : Z -> Z :=
  fun j => if j =? i then v else m j.

Record state : Type := mkState {
  flag_ser_label : bool;
  flag_ser_data : bool;
  flag_ser_end : bool;
  data_type : Z;
  length_label : Z;
  length_data : Z;
  buffer_label : Z -> Z;
  buffer_data : Z -> Z;
  port : list Z
}.

Inductive flow : Type :=
| Continue (st : state)
| Return (v : Z) (st : state).

(** The body of [if (Serial.available() > 0)]: one byte read and handled. *)
Definition on_byte (st : state) (inByte : Z) : flow :=
  if flag_ser_label st then
    if (inByte =? PACKET_INT) || (inByte =? PACKET_CHAR) then
      Continue {| flag_ser_label := false;
                  flag_ser_data := true;
                  flag_ser_end := flag_ser_end st;
                  data_type := char inByte;
                  length_label := length_label st;
                  length_data := 0;
                  buffer_label := store (buffer_label st) (length_label st) 0;
                  buffer_data := buffer_data st;
                  port := port st |}
    else
      Continue {| flag_ser_label := flag_ser_label st;
                  flag_ser_data := flag_ser_data st;
                  flag_ser_end := flag_ser_end st;
                  data_type := data_type st;
                  length_label := length_label st + 1;
                  length_data := length_data st;
                  buffer_label :=
                    store (buffer_label st) (length_label st) (char inByte);
                  buffer_data := buffer_data st;
                  port := port st |}
  else if flag_ser_data st then
    if inByte =? PACKET_END then
      Return (data_type st)
             {| flag_ser_label := flag_ser_label st;
                flag_ser_data := false;
                flag_ser_end := true;
                data_type := data_type st;
                length_label := length_label st;
                length_data := length_data st;
                buffer_label := buffer_label st;
                buffer_data := store (buffer_data st) (length_data st) 0;
                port := port st |}
    else
      Continue {| flag_ser_label := flag_ser_label st;
                  flag_ser_data := flag_ser_data st;
                  flag_ser_end := flag_ser_end st;
                  data_type := data_type st;
                  length_label := length_label st;
                  length_data := length_data st + 1;
                  buffer_label := buffer_label st;
                  buffer_data :=
                    store (buffer_data st) (length_data st) (char inByte);
                  port := port st |}
  else if inByte =? PACKET_START then
    Continue {| flag_ser_label := true;
                flag_ser_data := flag_ser_data st;
                flag_ser_end := flag_ser_end st;
                data_type := data_type st;
                length_label := 0;
                length_data := length_data st;
                buffer_label := buffer_label st;
                buffer_data := buffer_data st;
                port := port st |}
  else
    Continue {| flag_ser_label := flag_ser_label st;
                flag_ser_data := flag_ser_data st;
                flag_ser_end := flag_ser_end st;
                data_type := data_type st;
                length_label := length_label st;
                length_data := length_data st;
                buffer_label := buffer_label st;
                buffer_data := buffer_data st;
                port := (SerialSendErrorText (chars "SerInputErr") ;;
                         Serial_write (char inByte)) (port st) |}.

Inductive outcome : Type :=
| Returned (v : Z) (st : state) (rx : list (option Z))
| Waiting (st : state)
| NoReturn (st : state) (rx : list (option Z)).

(** [while (!flag_ser_end)]: leaving the loop through its condition reaches
    the end of the function, where nothing is returned. *)
Fixpoint receive_loop (st : state) (rx : list (option Z)) : outcome :=
  if flag_ser_end st then NoReturn st rx
  else
    match rx with
    | [] => Waiting st
    | None :: rx' => receive_loop st rx'
    | Some inByte :: rx' =>
        match on_byte st inByte with
        | Return v st' => Returned v st' rx'
        | Continue st' => receive_loop st' rx'
        end
    end.

(** [data_type] is declared without a value: [uninit] is whatever it holds. *)
Definition SerialReceiveAndParsePacket
    (buffer_label buffer_data : Z -> Z) (uninit : Z)
    (rx : list (option Z)) (tx : list Z) : outcome :=
  receive_loop {| flag_ser_label := false;
                  flag_ser_data := false;
                  flag_ser_end := false;
                  data_type := uninit;
                  length_label := 0;
                  length_data := 0;
                  buffer_label := buffer_label;
                  buffer_data := buffer_data;
                  port := tx |} rx.

(** ** What a run shows *)

(** The bytes of a receive schedule, the polls that saw nothing left out. *)
Fixpoint bytes_of (rx : list (option Z)) : list Z :=
  match rx with
  | [] => []
  | None :: rx' => bytes_of rx'
  | Some b :: rx' => b :: bytes_of rx'
  end.

Inductive result : Type :=
| Got (v : Z) (st : state) (rest : list Z)
| Pending (st : state)
| Lost (st : state) (rest : list Z).

Definition observe (o : outcome) : result :=
  match o with
  | Returned v st rx => Got v st (bytes_of rx)
  | Waiting st => Pending st
  | NoReturn st rx => Lost st (bytes_of rx)
  end.

Definition state_of (o : outcome) : state :=
  match o with
  | Returned _ st _ => st
  | Waiting st => st
  | NoReturn st _ => st
  end.

(** The first [n] cells of a buffer. *)
Definition read (m : Z -> Z) (n : Z) : list Z :=
  map (fun k => m (Z.of_nat k)) (seq 0 (Z.to_nat n)).

Record packet : Type := mkPacket {
  ptype : Z;
  plabel : list Z;
  pdata : list Z
}.

(** What the caller finds after a return: the returned type, and the
    accumulated label and data at the start of the two buffers. *)
Definition packet_of (v : Z) (st : state) : packet :=
  {| ptype := v;
     plabel := read (buffer_label st) (length_label st);
     pdata := read (buffer_data st) (length_data st) |}.

(** The two writes of the last branch of the reader. *)
Definition notice (inByte : Z) : cmd :=
  SerialSendErrorText (chars "SerInputErr") ;; Serial_write (char inByte).

Fixpoint notices (noise : list Z) : cmd :=
  match noise with
  | [] => fun tx => tx
  | b :: rest => notice b ;; notices rest
  end.

(** ** The reader in closed form *)

Fixpoint store_list (m : Z -> Z) (i : Z) (l : list Z) : Z -> Z :=
  match l with
  | [] => m
  | c :: rest => store_list (store m i (char c)) (i + 1) rest
  end.

Definition is_start (b : Z) : bool := b =? PACKET_START.
Definition is_marker (b : Z) : bool := (b =? PACKET_INT) || (b =? PACKET_CHAR).
Definition is_end (b : Z) : bool := b =? PACKET_END.

(** Split at the first element that satisfies [p]. *)
Fixpoint upto (p : Z -> bool) (l : list Z) : option (list Z * Z * list Z) :=
  match l with
  | [] => None
  | x :: rest =>
      if p x then Some ([], x, rest)
      else match upto p rest with
           | Some (a, y, b) => Some (x :: a, y, b)
           | None => None
           end
  end.

Definition len (l : list Z) : Z := Z.of_nat (List.length l).

(** What a call that starts on [bytes] comes to: noise up to the first
    START, the label up to the first INT or CHAR marker, the data up to the
    first END. *)
Definition reference (bl bd : Z -> Z) (uninit : Z) (bytes tx : list Z)
  : result :=
  match upto is_start bytes with
  | None =>
      Pending (mkState false false false uninit 0 0 bl bd (notices bytes tx))
  | Some (noise, _, r1) =>
      match upto is_marker r1 with
      | None =>
          Pending (mkState true false false uninit (len r1) 0
                     (store_list bl 0 r1) bd (notices noise tx))
      | Some (label, m, r2) =>
          match upto is_end r2 with
          | None =>
              Pending (mkState false true false (char m) (len label) (len r2)
                         (store (store_list bl 0 label) (len label) 0)
                         (store_list bd 0 r2) (notices noise tx))
          | Some (payload, _, rest) =>
              Got (char m)
                  (mkState false false true (char m) (len label) (len payload)
                     (store (store_list bl 0 label) (len label) 0)
                     (store (store_list bd 0 payload) (len payload) 0)
                     (notices noise tx))
                  rest
          end
      end
  end.

(** ** Messages and their writers *)

Inductive message : Type :=
| SingleInt (text : list Z) (ts : Z)
| IntPair (text : list Z) (int1 int2 : Z)
| Char (text : list Z) (data : Z)
| CharPair (text : list Z) (char1 char2 : Z).

Definition send (msg : message) : cmd :=
  match msg with
  | SingleInt text ts => SerialSendInt text ts
  | IntPair text int1 int2 => SerialSendIntPair text int1 int2
  | Char text data => SerialSendChar text data
  | CharPair text char1 char2 => SerialSendCharPair text char1 char2
  end.

(** The packet a message stands for: the marker its writer sends, the chars
    of its label and the bytes its writer sends between marker and END. *)
Definition sent_packet (msg : message) : packet :=
  match msg with
  | SingleInt text ts =>
      mkPacket PACKET_INT (cstr text) (SerialWriteLongInt ts [])
  | IntPair text int1 int2 =>
      mkPacket PACKET_INT2 (cstr text)
        ((SerialWriteLongInt int1 ;; SerialWriteLongInt int2) [])
  | Char text data => mkPacket PACKET_CHAR (cstr text) [uint8 data]
  | CharPair text char1 char2 =>
      mkPacket PACKET_CHAR (cstr text) [uint8 char1; uint8 char2]
  end.

(** A call of the reader on the bytes [bytes], however the polls fall
    between them, returns [p] with both buffers NUL-terminated, all bytes
    used and nothing written to the port. *)
Definition decodes_to (bytes : list Z) (p : packet) : Prop :=
  forall (bl bd : Z -> Z) (uninit : Z) (rx : list (option Z)) (tx : list Z),
    bytes_of rx = bytes ->
    exists st rx',
      SerialReceiveAndParsePacket bl bd uninit rx tx = Returned (ptype p) st rx'
      /\ packet_of (ptype p) st = p
      /\ buffer_label st (length_label st) = 0
      /\ buffer_data st (length_data st) = 0
      /\ bytes_of rx' = []
      /\ port st = tx.

Definition round_trip (msg : message) : Prop :=
  decodes_to (send msg []) (sent_packet msg).

Definition label_char (c : Z) : bool :=
  (0 <=? c) && (c <? 256) && negb (is_marker c).

(** The messages the reader gives back: not an IntPair, a label without INT
    or CHAR marker, and no END among the bytes after the marker. *)
Definition decodable (msg : message) : bool :=
  match sent_packet msg with
  | mkPacket t label data =>
      is_marker t && forallb label_char label
      && forallb (fun b => negb (is_end b)) data
  end.

(** Modelled from the spec: the caller that invokes the reader again for the
    next packet, on the same two buffers and the same port; the callers are
    the sketches, outside this library.  [uninit k] is what [data_type]
    holds at the start of call [k]. *)
Fixpoint receive_all (fuel : nat) (bl bd : Z -> Z) (uninit : nat -> Z)
    (rx : list (option Z)) (tx : list Z) : list packet :=
  match fuel with
  | O => []
  | S fuel' =>
      match SerialReceiveAndParsePacket bl bd (uninit O) rx tx with
      | Returned v st rx' =>
          packet_of v st ::
          receive_all fuel' (buffer_label st) (buffer_data st)
            (fun k => uninit (S k)) rx' (port st)
      | _ => []
      end
  end.

Definition decode_stream (bl bd : Z -> Z) (uninit : nat -> Z)
    (rx : list (option Z)) (tx : list Z) : list packet :=
  receive_all (List.length rx) bl bd uninit rx tx.

(** The polls of a schedule that saw nothing. *)
Fixpoint idle_polls (rx : list (option Z)) : nat :=
  match rx with
  | [] => O
  | None :: rx' => S (idle_polls rx')
  | Some _ :: rx' => idle_polls rx'
  end.

Definition untouched_beyond (m0 m : Z -> Z) : Prop :=
  forall i, MAX_BUFFER <= i -> m i = m0 i.

Definition zeros : Z -> Z := fun _ => 0.

(** ** Char array utility *)

(** [strlen]: the index of the first NUL from [i] on.  The scan of the code
    has no bound; [fuel] bounds the cells looked at, [None] when no NUL was
    found among them. *)
Fixpoint strlen_from (fuel : nat) (s : Z -> Z) (i : Z) : option Z :=
  match fuel with
  | O => None
  | S fuel' => if s i =? 0 then Some i else strlen_from fuel' s (i + 1)
  end.

(** The [for] loop of [CopyCharArray] from index [i] on: the value of [i]
    and the target when the loop is left, by its condition or by [break]. *)
Fixpoint copy_loop (fuel : nat) (i max_num_data : Z) (source target : Z -> Z)
  : Z * (Z -> Z) :=
  match fuel with
  | O => (i, target)
  | S fuel' =>
      if i <? max_num_data then
        if source i =? 0 then (i, target)
        else copy_loop fuel' (i + 1) max_num_data source
               (store target i (source i))
      else (i, target)
  end.

(** [source] and [target] are two arrays that do not overlap.  The loop runs
    at most [max_num_data] times; [fuel] is for the [strlen] of the end. *)
Definition CopyCharArray (fuel : nat) (source target : Z -> Z)
    (max_num_data : Z) : option Z * (Z -> Z) :=
  let (i, target1) :=
    copy_loop (Z.to_nat max_num_data) 0 max_num_data source target in
  let target2 := store target1 i 0 in
  (strlen_from fuel target2 0, target2).

(** The port after the messages have been sent one after the other. *)
Definition send_all (msgs : list message) : cmd :=
  fun tx => fold_left (fun t msg => send msg t) msgs tx.

(** * Properties *)

(** ** Lists, buffers and ports *)

Lemma bytes_of_Some (l : list Z) : bytes_of (map Some l) = l.
Proof. induction l as [|b l IH]; simpl; [reflexivity | now rewrite IH]. Qed.

Example ex_send_int :
  SerialSendInt (chars "Ts") 5 [] = [60; 84; 115; 124; 0; 0; 0; 5; 62].
Proof. reflexivity. Qed.

Lemma len_cons (x : Z) (l : list Z) : len (x :: l) = 1 + len l.
Proof. unfold len. cbn [List.length]. lia. Qed.

Lemma len_nonneg (l : list Z) : 0 <= len l.
Proof. unfold len. lia. Qed.

(** ** Splitting at a marker *)

Lemma upto_Some (p : Z -> bool) (l a b : list Z) (y : Z) :
  upto p l = Some (a, y, b) ->
  l = a ++ y :: b /\ forallb (fun x => negb (p x)) a = true /\ p y = true.
Proof.
  revert a. induction l as [|x l IH]; intros a H; cbn [upto] in H.
  - discriminate.
  - destruct (p x) eqn:Px.
    + injection H as <- <- <-. auto.
    + destruct (upto p l) as [[[a' y'] b']|]; [|discriminate].
      injection H as <- <- <-.
      destruct (IH a' eq_refl) as (-> & Ha & Hy).
      cbn [forallb app]. rewrite Px, Ha. auto.
Qed.

Lemma upto_first (p : Z -> bool) (a b : list Z) (y : Z) :
  forallb (fun x => negb (p x)) a = true -> p y = true ->
  upto p (a ++ y :: b) = Some (a, y, b).
Proof.
  intros Ha Hy. induction a as [|x a IH]; cbn [upto app].
  - now rewrite Hy.
  - cbn [forallb] in Ha. apply andb_prop in Ha as [Hx Ha].
    apply negb_true_iff in Hx. rewrite Hx, (IH Ha). reflexivity.
Qed.

(** ** The loop, stage by stage *)

Lemma receive_loop_end (st : state) (rx : list (option Z)) :
  flag_ser_end st = true -> receive_loop st rx = NoReturn st rx.
Proof. intro E. destruct rx; cbn [receive_loop]; now rewrite E. Qed.

(** Polls that see nothing change nothing. *)
Lemma receive_loop_polls (rx : list (option Z)) (st : state) :
  observe (receive_loop st rx)
  = observe (receive_loop st (map Some (bytes_of rx))).
Proof.
  revert st. induction rx as [|[b|] rx IH]; intro st.
  - reflexivity.
  - cbn [bytes_of map receive_loop].
    destruct (flag_ser_end st).
    + cbn [observe bytes_of]. now rewrite bytes_of_Some.
    + destruct (on_byte st b) as [st'|v st'].
      * apply IH.
      * cbn [observe]. now rewrite bytes_of_Some.
  - cbn [bytes_of receive_loop].
    destruct (flag_ser_end st) eqn:E.
    + rewrite (receive_loop_end _ _ E). cbn [observe].
      now rewrite bytes_of_Some.
    + apply IH.
Qed.

Lemma data_stage (r2 : list Z) (dt ll ld : Z) (bl bd : Z -> Z) (p : list Z) :
  observe (receive_loop (mkState false true false dt ll ld bl bd p)
             (map Some r2))
  = match upto is_end r2 with
    | None =>
        Pending (mkState false true false dt ll (ld + len r2) bl
                   (store_list bd ld r2) p)
    | Some (payload, _, rest) =>
        Got dt (mkState false false true dt ll (ld + len payload) bl
                  (store (store_list bd ld payload) (ld + len payload) 0) p)
            rest
    end.
Proof.
  revert ld bd. induction r2 as [|x r2 IH]; intros ld bd.
  - cbn. now rewrite Z.add_0_r.
  - cbn [map receive_loop flag_ser_end upto]. unfold is_end at 1.
    unfold on_byte. cbn [flag_ser_label flag_ser_data flag_ser_end data_type
      length_label length_data buffer_label buffer_data port].
    destruct (x =? PACKET_END).
    + cbn [observe store_list]. rewrite bytes_of_Some.
      change (len []) with 0. now rewrite Z.add_0_r.
    + rewrite IH. destruct (upto is_end r2) as [[[a y] b]|];
        rewrite len_cons, Z.add_assoc; reflexivity.
Qed.

Lemma label_stage (r1 : list Z) (fd : bool) (dt ll ld : Z) (bl bd : Z -> Z)
    (p : list Z) :
  observe (receive_loop (mkState true fd false dt ll ld bl bd p)
             (map Some r1))
  = match upto is_marker r1 with
    | None =>
        Pending (mkState true fd false dt (ll + len r1) ld
                   (store_list bl ll r1) bd p)
    | Some (label, m, r2) =>
        observe
          (receive_loop
             (mkState false true false (char m) (ll + len label) 0
                (store (store_list bl ll label) (ll + len label) 0) bd p)
             (map Some r2))
    end.
Proof.
  revert ll bl. induction r1 as [|x r1 IH]; intros ll bl.
  - cbn. now rewrite Z.add_0_r.
  - cbn [map receive_loop flag_ser_end upto]. unfold is_marker at 1.
    unfold on_byte. cbn [flag_ser_label flag_ser_data flag_ser_end data_type
      length_label length_data buffer_label buffer_data port].
    destruct ((x =? PACKET_INT) || (x =? PACKET_CHAR)).
    + cbn [store_list]. change (len []) with 0. now rewrite Z.add_0_r.
    + rewrite IH. destruct (upto is_marker r1) as [[[a y] b]|];
        rewrite len_cons, Z.add_assoc; reflexivity.
Qed.

Lemma idle_stage (bytes : list Z) (dt ll ld : Z) (bl bd : Z -> Z)
    (p : list Z) :
  observe (receive_loop (mkState false false false dt ll ld bl bd p)
             (map Some bytes))
  = match upto is_start bytes with
    | None =>
        Pending (mkState false false false dt ll ld bl bd (notices bytes p))
    | Some (noise, _, r1) =>
        observe
          (receive_loop
             (mkState true false false dt 0 ld bl bd (notices noise p))
             (map Some r1))
    end.
Proof.
  revert p. induction bytes as [|x bytes IH]; intro p.
  - reflexivity.
  - cbn [map receive_loop flag_ser_end upto]. unfold is_start at 1.
    unfold on_byte. cbn [flag_ser_label flag_ser_data flag_ser_end data_type
      length_label length_data buffer_label buffer_data port].
    destruct (x =? PACKET_START).
    + reflexivity.
    + rewrite IH. destruct (upto is_start bytes) as [[[a y] b]|]; reflexivity.
Qed.

(** The reader is its closed form, whatever the polls. *)
Lemma receive_reference (bl bd : Z -> Z) (uninit : Z)
    (rx : list (option Z)) (tx : list Z) :
  observe (SerialReceiveAndParsePacket bl bd uninit rx tx)
  = reference bl bd uninit (bytes_of rx) tx.
Proof.
  unfold SerialReceiveAndParsePacket, reference.
  rewrite receive_loop_polls, idle_stage.
  destruct (upto is_start (bytes_of rx)) as [[[noise s] r1]|]; [|reflexivity].
  rewrite label_stage.
  destruct (upto is_marker r1) as [[[label m] r2]|]; [|reflexivity].
  rewrite data_stage. reflexivity.
Qed.

Lemma observe_Got (o : outcome) (v : Z) (st : state) (rest : list Z) :
  observe o = Got v st rest ->
  exists rx', o = Returned v st rx' /\ bytes_of rx' = rest.
Proof.
  destruct o as [v' st' rx'|st'|st' rx']; cbn [observe]; intro H;
    [|discriminate..].
  injection H as -> -> <-. now exists rx'.
Qed.

Lemma observe_state (o : outcome) :
  state_of o = match observe o with
               | Got _ st _ => st
               | Pending st => st
               | Lost st _ => st
               end.
Proof. now destruct o. Qed.

(** ** Buffers *)

Lemma store_same (m : Z -> Z) (i v : Z) : store m i v i = v.
Proof. unfold store. now rewrite Z.eqb_refl. Qed.

Lemma store_other (m : Z -> Z) (i v j : Z) : j <> i -> store m i v j = m j.
Proof. intro H. unfold store. apply Z.eqb_neq in H. now rewrite H. Qed.

Lemma store_list_below (l : list Z) (m : Z -> Z) (i j : Z) :
  j < i -> store_list m i l j = m j.
Proof.
  revert m i. induction l as [|c l IH]; intros m i H; cbn [store_list].
  - reflexivity.
  - rewrite IH by lia. apply store_other. lia.
Qed.

Lemma store_list_above (l : list Z) (m : Z -> Z) (i j : Z) :
  i + len l <= j -> store_list m i l j = m j.
Proof.
  revert m i. induction l as [|c l IH]; intros m i H; cbn [store_list].
  - reflexivity.
  - rewrite len_cons in H. pose proof (len_nonneg l).
    rewrite IH by lia. apply store_other. lia.
Qed.

Lemma store_list_cells (l : list Z) (m : Z -> Z) (i : Z) :
  map (fun k => store_list m i l (i + Z.of_nat k)) (seq 0 (List.length l))
  = map char l.
Proof.
  revert m i. induction l as [|c l IH]; intros m i; [reflexivity|].
  cbn [List.length seq map store_list]. f_equal.
  - rewrite store_list_below by lia. rewrite Z.add_0_r. apply store_same.
  - rewrite <- seq_shift, map_map, <- (IH (store m i (char c)) (i + 1)).
    apply map_ext. intro k. f_equal. lia.
Qed.

Lemma read_stored (l : list Z) (m : Z -> Z) (v : Z) :
  read (store (store_list m 0 l) (len l) v) (len l) = map char l.
Proof.
  unfold read, len. rewrite Nat2Z.id, <- (store_list_cells l m 0).
  apply map_ext_in. intros k Hk. apply in_seq in Hk.
  rewrite store_other by lia. reflexivity.
Qed.

Lemma read_stored_list (l : list Z) (m : Z -> Z) :
  read (store_list m 0 l) (len l) = map char l.
Proof.
  unfold read, len. rewrite Nat2Z.id, <- (store_list_cells l m 0).
  reflexivity.
Qed.

Lemma map_char_id (l : list Z) : Forall is_char l -> map char l = l.
Proof.
  induction 1 as [|c l Hc _ IH]; cbn [map]; [reflexivity|].
  rewrite IH. unfold char. now rewrite Z.mod_small.
Qed.

Lemma uint8_is_char (i : Z) : is_char (uint8 i).
Proof. unfold is_char, uint8. apply Z.mod_pos_bound. lia. Qed.

Lemma is_marker_char (t : Z) : is_marker t = true -> char t = t.
Proof.
  unfold is_marker. intro H. apply orb_prop in H as [H|H];
    apply Z.eqb_eq in H; subst t; reflexivity.
Qed.

(** ** The writers as byte sequences *)

Lemma SerialWriteLongInt_app (val : Z) (tx : list Z) :
  SerialWriteLongInt val tx = tx ++ SerialWriteLongInt val [].
Proof.
  unfold SerialWriteLongInt, andthen, Serial_write. cbn [app].
  now rewrite <- !app_assoc.
Qed.

Lemma SerialWriteLongInt_chars (val : Z) :
  Forall is_char (SerialWriteLongInt val []).
Proof.
  unfold SerialWriteLongInt, andthen, Serial_write. cbn [app].
  repeat constructor; apply uint8_is_char.
Qed.

(** Every writer sends START, the label, its marker, its data, END. *)
Lemma send_frame (msg : message) :
  send msg []
  = PACKET_START :: plabel (sent_packet msg)
    ++ ptype (sent_packet msg) :: pdata (sent_packet msg) ++ [PACKET_END].
Proof.
  destruct msg; cbn [send sent_packet plabel ptype pdata];
    unfold SerialSendInt, SerialSendIntPair, SerialSendChar,
      SerialSendCharPair, andthen, Serial_flush, Serial_write_str.
  - rewrite (SerialWriteLongInt_app ts (Serial_write _ _)).
    unfold Serial_write. cbn [app]. rewrite <- !app_assoc. reflexivity.
  - rewrite (SerialWriteLongInt_app int2 (SerialWriteLongInt _ _)),
      (SerialWriteLongInt_app int1 (Serial_write _ _)),
      (SerialWriteLongInt_app int2 (SerialWriteLongInt _ _)).
    unfold Serial_write. cbn [app]. rewrite <- !app_assoc. reflexivity.
  - unfold Serial_write. cbn [app]. rewrite <- !app_assoc. reflexivity.
  - unfold Serial_write. cbn [app]. rewrite <- !app_assoc. reflexivity.
Qed.

Lemma sent_data_chars (msg : message) :
  Forall is_char (pdata (sent_packet msg)).
Proof.
  destruct msg; cbn [sent_packet pdata].
  - apply SerialWriteLongInt_chars.
  - unfold andthen. rewrite SerialWriteLongInt_app. apply Forall_app.
    split; apply SerialWriteLongInt_chars.
  - repeat constructor; apply uint8_is_char.
  - repeat constructor; apply uint8_is_char.
Qed.

Lemma observe_Pending (o : outcome) (st : state) :
  observe o = Pending st -> o = Waiting st.
Proof.
  destruct o; cbn [observe]; intro H; [discriminate| |discriminate].
  now injection H as ->.
Qed.

Lemma upto_absent (p : Z -> bool) (l : list Z) :
  forallb (fun x => negb (p x)) l = true -> upto p l = None.
Proof.
  induction l as [|x l IH]; cbn [forallb upto]; [reflexivity|].
  intro H. apply andb_prop in H as [Hx Hl].
  apply negb_true_iff in Hx. now rewrite Hx, (IH Hl).
Qed.

Lemma label_char_plain (l : list Z) :
  forallb label_char l = true ->
  forallb (fun x => negb (is_marker x)) l = true /\ Forall is_char l.
Proof.
  induction l as [|c l IH]; cbn [forallb]; [auto|].
  intro H. apply andb_prop in H as [Hc Hl]. destruct (IH Hl) as [I1 I2].
  unfold label_char in Hc. apply andb_prop in Hc as [Hr Hm].
  apply andb_prop in Hr as [R1 R2]. rewrite Hm, I1. split; [reflexivity|].
  constructor; [unfold is_char; lia | exact I2].
Qed.

(** A well-formed frame comes back as it was sent, after a notice for each
    byte that came before its START. *)
Lemma noisy_frame_received (noise label data : list Z) (t : Z) :
  forallb (fun b => negb (is_start b)) noise = true ->
  is_marker t = true ->
  forallb label_char label = true ->
  forallb (fun b => negb (is_end b)) data = true ->
  Forall is_char data ->
  forall (bl bd : Z -> Z) (uninit : Z) (rx : list (option Z)) (tx : list Z),
    bytes_of rx
    = noise ++ PACKET_START :: label ++ t :: data ++ [PACKET_END] ->
    exists st rx',
      SerialReceiveAndParsePacket bl bd uninit rx tx = Returned t st rx'
      /\ packet_of t st = mkPacket t label data
      /\ buffer_label st (length_label st) = 0
      /\ buffer_data st (length_data st) = 0
      /\ bytes_of rx' = []
      /\ port st = notices noise tx.
Proof.
  intros Hn Ht Hl Hd Hc bl bd uninit rx tx Hrx.
  pose proof (receive_reference bl bd uninit rx tx) as R.
  rewrite Hrx in R. unfold reference in R.
  destruct (label_char_plain _ Hl) as [Hl1 Hl2].
  rewrite (upto_first is_start noise _ PACKET_START Hn eq_refl) in R.
  rewrite (upto_first is_marker label _ t Hl1 Ht) in R.
  rewrite (upto_first is_end data [] PACKET_END Hd eq_refl) in R.
  rewrite (is_marker_char t Ht) in R.
  apply observe_Got in R as (rx' & -> & Hrest).
  eexists; exists rx'. split; [reflexivity|].
  unfold packet_of.
  cbn [ptype buffer_label buffer_data length_label length_data port].
  rewrite !read_stored, !store_same, (map_char_id _ Hl2), (map_char_id _ Hc).
  auto.
Qed.

Lemma frame_decodes (label data : list Z) (t : Z) :
  is_marker t = true ->
  forallb label_char label = true ->
  forallb (fun b => negb (is_end b)) data = true ->
  Forall is_char data ->
  decodes_to (PACKET_START :: label ++ t :: data ++ [PACKET_END])
             (mkPacket t label data).
Proof.
  intros Ht Hl Hd Hc bl bd uninit rx tx Hrx.
  exact (noisy_frame_received [] label data t eq_refl Ht Hl Hd Hc
           bl bd uninit rx tx Hrx).
Qed.

Lemma notice_bytes (b : Z) (tx : list Z) :
  notice b tx
  = tx ++ SerialSendErrorText (chars "SerInputErr") [] ++ [char b].
Proof.
  unfold notice, SerialSendErrorText, andthen, Serial_flush, Serial_write_str,
    Serial_write.
  cbn [app]. rewrite <- !app_assoc. unfold char, uint8.
  rewrite Z.mod_mod by lia. reflexivity.
Qed.

(** What a call that returns has read. *)
Lemma returned_frame (bl bd : Z -> Z) (uninit : Z) (rx : list (option Z))
    (tx : list Z) (v : Z) (st : state) (rx' : list (option Z)) :
  SerialReceiveAndParsePacket bl bd uninit rx tx = Returned v st rx' ->
  (v = PACKET_INT \/ v = PACKET_CHAR)
  /\ exists noise label payload,
       bytes_of rx
       = noise ++ PACKET_START :: label
         ++ v :: payload ++ PACKET_END :: bytes_of rx'
       /\ forallb (fun b => negb (is_start b)) noise = true
       /\ forallb (fun b => negb (is_marker b)) label = true
       /\ forallb (fun b => negb (is_end b)) payload = true
       /\ packet_of v st = mkPacket v (map char label) (map char payload).
Proof.
  intro H.
  pose proof (receive_reference bl bd uninit rx tx) as R.
  rewrite H in R. cbn [observe] in R. unfold reference in R.
  destruct (upto is_start (bytes_of rx)) as [[[noise s] r1]|] eqn:U1;
    [|discriminate R].
  destruct (upto is_marker r1) as [[[label m] r2]|] eqn:U2;
    [|discriminate R].
  destruct (upto is_end r2) as [[[payload e] rest]|] eqn:U3;
    [|discriminate R].
  injection R as -> -> ->.
  apply upto_Some in U1 as (E1 & N1 & S1).
  apply upto_Some in U2 as (-> & N2 & S2).
  apply upto_Some in U3 as (-> & N3 & S3).
  apply Z.eqb_eq in S1, S3. subst s e.
  rewrite (is_marker_char m S2).
  split.
  { unfold is_marker in S2.
    apply orb_prop in S2 as [S2|S2]; apply Z.eqb_eq in S2; auto. }
  exists noise, label, payload. split; [exact E1|].
  repeat (split; [assumption|]).
  unfold packet_of.
  cbn [buffer_label buffer_data length_label length_data].
  now rewrite !read_stored.
Qed.

Lemma app_same_length (a a' b b' : list Z) :
  List.length a = List.length a' -> a ++ b = a' ++ b' -> a = a' /\ b = b'.
Proof.
  revert a'. induction a as [|x a IH]; intros [|x' a'] L H;
    try discriminate L.
  - now split.
  - cbn [app] in H. injection H as -> H. injection L as L.
    destruct (IH a' L H) as [-> ->]. now split.
Qed.

Lemma map_char_fixed (l : list Z) : map char l = l -> Forall is_char l.
Proof.
  induction l as [|c l IH]; cbn [map]; intro H; constructor.
  - injection H as H _. unfold char in H. unfold is_char. rewrite <- H.
    apply Z.mod_pos_bound. lia.
  - injection H as _ H. now apply IH.
Qed.

(** ** Round trip through writer and reader *)

Example ex_int_pair_wire :
  SerialSendIntPair (chars "Ts") 1 4294967295 []
  = [60; 84; 115; 126; 0; 0; 0; 1; 255; 255; 255; 255; 62].
Proof. reflexivity. Qed.

Example ex_int_pair_label :
  match SerialReceiveAndParsePacket zeros zeros 0
          (map Some (SerialSendIntPair (chars "Ts") 1 2 [])) [] with
  | Waiting st =>
      flag_ser_label st = true
      /\ read (buffer_label st) (length_label st)
         = [84; 115; 126; 0; 0; 0; 1; 0; 0; 0; 2; 62]
  | _ => False
  end.
Proof. vm_compute. split; reflexivity. Qed.

Example ex_int_62_cut :
  match SerialReceiveAndParsePacket zeros zeros 0
          (map Some (SerialSendInt (chars "Ts") 62 [])) [] with
  | Returned v st rx' =>
      v = PACKET_INT /\ rx' = [Some PACKET_END]
      /\ packet_of v st = mkPacket PACKET_INT (chars "Ts") [0; 0; 0]
  | _ => False
  end.
Proof. vm_compute. repeat split. Qed.

(** C1, as the claim states it, fails: an IntPair message is never given
    back by the reader (its marker is not one the reader knows, the call is
    still collecting the label when the bytes are used up), and a SingleInt
    whose value has a byte equal to END (here 62 = 0x0000003E) comes back
    with its data cut at that byte.  In neither case does the call return
    the marker, label and data that were sent. *)
Lemma round_trip_counterexample :
  ~ (exists v st rx',
        SerialReceiveAndParsePacket zeros zeros 0
          (map Some (send (IntPair (chars "Ts") 1 2) [])) []
        = Returned v st rx')
  /\ ~ (exists st rx',
          SerialReceiveAndParsePacket zeros zeros 0
            (map Some (send (SingleInt (chars "Ts") 62) [])) []
          = Returned (ptype (sent_packet (SingleInt (chars "Ts") 62))) st rx'
          /\ packet_of (ptype (sent_packet (SingleInt (chars "Ts") 62))) st
             = sent_packet (SingleInt (chars "Ts") 62)).
Proof.
  split.
  - intros (v & st & rx' & E). vm_compute in E. discriminate E.
  - intros (st & rx' & E & P).
    vm_compute in E. injection E as Hst _. subst st.
    vm_compute in P. discriminate P.
Qed.

(** C1, amended: the messages that the reader gives back as they were
    sent (marker, label, data bytes, both buffers NUL-terminated, however
    the polls fall between the bytes) are exactly those that are not an
    IntPair, whose label chars are none of the INT and CHAR markers, and
    whose bytes between marker and END are none of them END. *)
Theorem round_trip_decodable (msg : message) :
  decodable msg = true <-> round_trip msg.
Proof.
  unfold round_trip, decodable. rewrite send_frame.
  pose proof (sent_data_chars msg) as Hc.
  destruct (sent_packet msg) as [t label data].
  cbn [ptype plabel pdata] in *. split; intro H.
  - apply andb_prop in H as [H Hd]. apply andb_prop in H as [Ht Hl].
    now apply frame_decodes.
  - destruct (H zeros zeros 0 _ [] (bytes_of_Some _))
      as (st & rx' & E & P & _ & _ & R & _).
    cbn [ptype] in E, P.
    destruct (returned_frame _ _ _ _ _ _ _ _ E)
      as (M & noise & label' & data' & B & N1 & N2 & N3 & Q).
    rewrite bytes_of_Some, R in B. rewrite P in Q.
    injection Q as Ql Qd.
    destruct noise as [|x noise].
    2:{ cbn [app] in B. injection B as <- _. cbn [forallb] in N1.
        discriminate N1. }
    cbn [app] in B. injection B as B.
    apply app_same_length in B as [<- B];
      [|rewrite Ql at 1; now rewrite length_map].
    injection B as B. apply app_inv_tail in B. subst data'.
    assert (Ht : is_marker t = true) by (destruct M as [-> | ->]; reflexivity).
    rewrite Ht, N3, andb_true_r. cbn [andb].
    pose proof (map_char_fixed _ (eq_sym Ql)) as Hr.
    clear - N2 Hr. induction label as [|c label IH]; [reflexivity|].
    cbn [forallb] in *. apply andb_prop in N2 as [Nc N2].
    inversion Hr as [|? ? Hc Hr']; subst.
    rewrite (IH N2 Hr'), andb_true_r. unfold label_char, is_char in *.
    rewrite Nc, andb_true_r. apply andb_true_intro. split; lia.
Qed.

Lemma round_trip_decodable_witness :
  decodable (CharPair (chars "StimOn") 71 78) = true
  /\ round_trip (CharPair (chars "StimOn") 71 78).
Proof.
  split; [reflexivity|].
  apply (proj1 (round_trip_decodable (CharPair (chars "StimOn") 71 78))).
  reflexivity.
Defined.

(** C2, as the claim states it, fails: on the bytes written for the
    IntPair (1, 4294967295) the reader returns nothing at all. *)
Lemma int_pair_counterexample :
  ~ (exists v st rx',
        SerialReceiveAndParsePacket zeros zeros 0
          (map Some (SerialSendIntPair (chars "Ts") 1 4294967295 [])) []
        = Returned v st rx').
Proof.
  intros (v & st & rx' & E). vm_compute in E. discriminate E.
Qed.

(** C2, amended: [SerialSendIntPair] with the values (1, 4294967295) writes
    START, the label, the INT2 marker, 00 00 00 01, FF FF FF FF, END: each
    value big-endian.  The reader does not know the INT2 marker: for a
    label without INT or CHAR marker it returns no packet on these bytes;
    when they are used up it is still collecting the label, which by then
    holds the label, the INT2 marker, the eight bytes and END. *)
Theorem int_pair_not_received (text : list Z) :
  forallb label_char (cstr text) = true ->
  SerialSendIntPair text 1 4294967295 []
  = PACKET_START :: cstr text
    ++ PACKET_INT2 :: [0; 0; 0; 1; 255; 255; 255; 255] ++ [PACKET_END]
  /\ forall bl bd uninit rx tx,
       bytes_of rx = SerialSendIntPair text 1 4294967295 [] ->
       exists st,
         SerialReceiveAndParsePacket bl bd uninit rx tx = Waiting st
         /\ flag_ser_label st = true
         /\ port st = tx
         /\ read (buffer_label st) (length_label st)
            = cstr text
              ++ PACKET_INT2 :: [0; 0; 0; 1; 255; 255; 255; 255]
              ++ [PACKET_END].
Proof.
  intro Hl.
  assert (W : SerialSendIntPair text 1 4294967295 []
              = PACKET_START :: cstr text
                ++ PACKET_INT2 :: [0; 0; 0; 1; 255; 255; 255; 255]
                ++ [PACKET_END])
    by exact (send_frame (IntPair text 1 4294967295)).
  split; [exact W|].
  intros bl bd uninit rx tx Hrx. rewrite W in Hrx.
  destruct (label_char_plain _ Hl) as [Hm Hc].
  pose proof (receive_reference bl bd uninit rx tx) as R.
  rewrite Hrx in R. unfold reference in R.
  cbn [upto] in R. change (is_start PACKET_START) with true in R.
  cbv iota in R.
  rewrite upto_absent in R
    by (rewrite forallb_app, Hm; reflexivity).
  apply observe_Pending in R. eexists. split; [exact R|].
  cbn [flag_ser_label port length_label buffer_label notices].
  repeat split. rewrite read_stored_list. apply map_char_id.
  apply Forall_app. split; [exact Hc|].
  repeat constructor; unfold is_char; vm_compute; intuition discriminate.
Qed.

Lemma int_pair_not_received_witness :
  forallb label_char (cstr (chars "Ts")) = true
  /\ exists st,
       SerialReceiveAndParsePacket zeros zeros 0
         (map Some (SerialSendIntPair (chars "Ts") 1 4294967295 [])) []
       = Waiting st
       /\ flag_ser_label st = true.
Proof.
  split; [reflexivity|].
  destruct (int_pair_not_received (chars "Ts") eq_refl) as [_ H].
  destruct (H zeros zeros 0
              (map Some (SerialSendIntPair (chars "Ts") 1 4294967295 [])) []
              (bytes_of_Some _)) as (st & E & F & _).
  exists st. split; assumption.
Defined.

(** ** Buffer capacity *)

(** C3, as the claim states it, fails: after START and 101 label bytes the
    call is still running (no failure of any kind), the label length is 101
    and cell 100 of the label buffer, the first one past a buffer of
    [MAX_BUFFER] chars, has been written. *)
Lemma overflow_counterexample :
  exists st,
    SerialReceiveAndParsePacket zeros zeros 0
      (map Some (PACKET_START :: repeat (chr "a") 101)) [] = Waiting st
    /\ length_label st = 101
    /\ buffer_label st 100 = chr "a"
    /\ ~ untouched_beyond zeros (buffer_label st).
Proof.
  eexists. split; [vm_compute; reflexivity|].
  split; [reflexivity|]. split; [reflexivity|].
  intro H. specialize (H 100). unfold MAX_BUFFER in H.
  specialize (H (Z.le_refl 100)). vm_compute in H. discriminate H.
Qed.

(** C3, amended: the reader has no capacity check and no failure outcome.
    A label byte received at accumulated length n is stored at index n of
    the label buffer whatever n is, and so is a data byte in the data
    buffer.  A call writes no cell above the accumulated length, so the
    cells from [MAX_BUFFER] on are left as they were as long as the
    accumulated label and data lengths stay below [MAX_BUFFER]. *)
Theorem writes_confined (bl bd : Z -> Z) (uninit : Z)
    (rx : list (option Z)) (tx : list Z) :
  let st := state_of (SerialReceiveAndParsePacket bl bd uninit rx tx) in
  (forall i, length_label st < i -> buffer_label st i = bl i)
  /\ (forall i, length_data st < i -> buffer_data st i = bd i)
  /\ (length_label st < MAX_BUFFER -> untouched_beyond bl (buffer_label st))
  /\ (length_data st < MAX_BUFFER -> untouched_beyond bd (buffer_data st))
  /\ (forall s b, flag_ser_label s = true -> is_marker b = false ->
        exists s', on_byte s b = Continue s'
                   /\ length_label s' = length_label s + 1
                   /\ buffer_label s' (length_label s) = char b)
  /\ (forall s b, flag_ser_label s = false -> flag_ser_data s = true ->
        is_end b = false ->
        exists s', on_byte s b = Continue s'
                   /\ length_data s' = length_data s + 1
                   /\ buffer_data s' (length_data s) = char b).
Proof.
  intro st.
  assert (L : forall i, length_label st < i -> buffer_label st i = bl i).
  { subst st. rewrite observe_state, receive_reference. unfold reference.
    destruct (upto is_start (bytes_of rx)) as [[[noise s] r1]|];
      [|reflexivity].
    destruct (upto is_marker r1) as [[[label m] r2]|].
    - destruct (upto is_end r2) as [[[payload e] rest]|];
        cbn [length_label buffer_label]; intros i Hi;
        (rewrite store_other by lia); apply store_list_above; lia.
    - cbn [length_label buffer_label]. intros i Hi.
      apply store_list_above. lia. }
  assert (D : forall i, length_data st < i -> buffer_data st i = bd i).
  { subst st. rewrite observe_state, receive_reference. unfold reference.
    destruct (upto is_start (bytes_of rx)) as [[[noise s] r1]|];
      [|reflexivity].
    destruct (upto is_marker r1) as [[[label m] r2]|]; [|reflexivity].
    destruct (upto is_end r2) as [[[payload e] rest]|];
      cbn [length_data buffer_data]; intros i Hi.
    - rewrite store_other by lia. apply store_list_above. lia.
    - apply store_list_above. lia. }
  split; [exact L|]. split; [exact D|].
  split; [intros H i Hi; apply L; lia|].
  split; [intros H i Hi; apply D; lia|].
  split.
  - intros s b Hs Hb. unfold on_byte. rewrite Hs.
    unfold is_marker in Hb. rewrite Hb. eexists. split; [reflexivity|].
    cbn [length_label buffer_label]. split; [reflexivity|apply store_same].
  - intros s b Hl Hs Hb. unfold on_byte. rewrite Hl, Hs.
    unfold is_end in Hb. rewrite Hb. eexists. split; [reflexivity|].
    cbn [length_data buffer_data]. split; [reflexivity|apply store_same].
Qed.

Lemma writes_confined_witness :
  untouched_beyond zeros
    (buffer_label
       (state_of (SerialReceiveAndParsePacket zeros zeros 0
                    (map Some (SerialSendInt (chars "Ts") 5 [])) [])))
  /\ on_byte (mkState true false false 0 100 0 zeros zeros []) (chr "a")
     = Continue (mkState true false false 0 101 0
                   (store zeros 100 (chr "a")) zeros []).
Proof.
  pose proof (writes_confined zeros zeros 0
                (map Some (SerialSendInt (chars "Ts") 5 [])) [])
    as (_ & _ & H & _).
  split; [apply H; reflexivity | reflexivity].
Defined.

(** ** Worked packets *)

(** C4: two bytes X and Y that are not START, then the SingleInt packet
    "Ts" with value 5.  The call writes one error notice for X and one for
    Y, in that order (each the Err packet with the text SerInputErr,
    followed by the offending byte), and returns the INT type with label
    "Ts" and the four data bytes 00 00 00 05, the big-endian bytes of 5. *)
Theorem noise_then_packet (X Y : Z) (bl bd : Z -> Z) (uninit : Z)
    (rx : list (option Z)) (tx : list Z) :
  is_char X -> is_char Y -> X <> PACKET_START -> Y <> PACKET_START ->
  bytes_of rx
  = [X; Y] ++ PACKET_START :: chars "Ts"
    ++ PACKET_INT :: [0; 0; 0; 5] ++ [PACKET_END] ->
  exists st rx',
    SerialReceiveAndParsePacket bl bd uninit rx tx
    = Returned PACKET_INT st rx'
    /\ packet_of PACKET_INT st
       = mkPacket PACKET_INT (chars "Ts") (SerialWriteLongInt 5 [])
    /\ SerialWriteLongInt 5 [] = [0; 0; 0; 5]
    /\ port st
       = tx ++ (SerialSendErrorText (chars "SerInputErr") [] ++ [X])
            ++ (SerialSendErrorText (chars "SerInputErr") [] ++ [Y])
    /\ bytes_of rx' = [].
Proof.
  intros CX CY HX HY Hrx.
  assert (Hn : forallb (fun b => negb (is_start b)) [X; Y] = true).
  { cbn [forallb]. unfold is_start.
    apply Z.eqb_neq in HX, HY. now rewrite HX, HY. }
  destruct (noisy_frame_received [X; Y] (chars "Ts") [0; 0; 0; 5] PACKET_INT
              Hn eq_refl eq_refl eq_refl
              ltac:(repeat constructor; unfold is_char; lia)
              bl bd uninit rx tx Hrx)
    as (st & rx' & E & P & _ & _ & R & T).
  exists st, rx'. split; [exact E|]. split; [exact P|].
  split; [reflexivity|]. split; [|exact R].
  rewrite T. cbn [notices]. unfold andthen. rewrite !notice_bytes.
  unfold char. rewrite !Z.mod_small by assumption.
  now rewrite <- !app_assoc.
Qed.

Lemma noise_then_packet_witness :
  exists st,
    SerialReceiveAndParsePacket zeros zeros 0
      (map Some ([88; 89] ++ SerialSendInt (chars "Ts") 5 [])) []
    = Returned PACKET_INT st []
    /\ port st = chars "<Err@SerInputErr>X<Err@SerInputErr>Y".
Proof.
  destruct (noise_then_packet 88 89 zeros zeros 0
              (map Some ([88; 89] ++ SerialSendInt (chars "Ts") 5 [])) [])
    as (st & rx' & E & _ & _ & T & _);
    [unfold is_char; lia | unfold is_char; lia
     | discriminate | discriminate | reflexivity |].
  exists st. split; [|exact T].
  rewrite E. vm_compute in E. injection E as _ E. now subst rx'.
Defined.

(** C5: the SingleInt packet "Ts" with value 0x12345678, written and then
    read, comes back with label "Ts", the INT type and the data bytes
    12 34 56 78 (hexadecimal), most significant first. *)
Theorem single_int_round_trip :
  SerialSendInt (chars "Ts") 0x12345678 []
  = PACKET_START :: chars "Ts"
    ++ PACKET_INT :: [0x12; 0x34; 0x56; 0x78] ++ [PACKET_END]
  /\ decodes_to (SerialSendInt (chars "Ts") 0x12345678 [])
       (mkPacket PACKET_INT (chars "Ts") [0x12; 0x34; 0x56; 0x78]).
Proof.
  split; [reflexivity|].
  exact (frame_decodes (chars "Ts") [0x12; 0x34; 0x56; 0x78] PACKET_INT
           eq_refl eq_refl eq_refl
           ltac:(repeat constructor; unfold is_char; lia)).
Qed.

Lemma single_int_round_trip_witness :
  exists st,
    SerialReceiveAndParsePacket zeros zeros 0
      (None :: Some 60 :: Some 84 :: None :: None :: Some 115 :: Some 124
       :: Some 18 :: Some 52 :: None :: Some 86 :: Some 120 :: [Some 62]) []
    = Returned PACKET_INT st []
    /\ packet_of PACKET_INT st = mkPacket 124 [84; 115] [18; 52; 86; 120].
Proof.
  destruct single_int_round_trip as [_ H].
  destruct (H zeros zeros 0
              (None :: Some 60 :: Some 84 :: None :: None :: Some 115
               :: Some 124 :: Some 18 :: Some 52 :: None :: Some 86
               :: Some 120 :: [Some 62]) [] eq_refl)
    as (st & rx' & E & P & _).
  exists st. split; [|exact P].
  rewrite E. vm_compute in E. injection E as _ E. now subst rx'.
Defined.

(** C6: START, at once the CHAR marker, one data byte (any byte but END),
    END: the reader returns the CHAR type with the empty label and the one
    data byte. *)
Theorem empty_label_char (d : Z) :
  is_char d -> d <> PACKET_END ->
  decodes_to [PACKET_START; PACKET_CHAR; d; PACKET_END]
    (mkPacket PACKET_CHAR [] [d]).
Proof.
  intros Hc Hd.
  apply (frame_decodes [] [d] PACKET_CHAR eq_refl eq_refl).
  - cbn [forallb]. unfold is_end. apply Z.eqb_neq in Hd. now rewrite Hd.
  - now constructor.
Qed.

Lemma empty_label_char_witness :
  (is_char 120 /\ 120 <> PACKET_END)
  /\ exists st,
       SerialReceiveAndParsePacket zeros zeros 0
         [Some 60; Some 64; Some 120; Some 62] []
       = Returned PACKET_CHAR st []
       /\ packet_of PACKET_CHAR st = mkPacket PACKET_CHAR [] [120].
Proof.
  split; [split; [unfold is_char; lia | discriminate]|].
  destruct (empty_label_char 120 ltac:(unfold is_char; lia)
              ltac:(discriminate) zeros zeros 0
              [Some 60; Some 64; Some 120; Some 62] [] eq_refl)
    as (st & rx' & E & P & _).
  exists st. split; [|exact P].
  rewrite E. vm_compute in E. injection E as _ E. now subst rx'.
Defined.

(** ** Handshake *)

(** C7: the handshake returns exactly at the first ['P'] it reads.  If it
    has returned, the schedule is some polls without a ['P'], then the
    ['P'], then what is left unread, and an ['A'] was written for each poll
    that saw nothing; every other byte before the ['P'] was read and
    dropped.  If it has not, no ['P'] has come. *)
Theorem handshake_until_P (rx : list (option Z)) (tx : list Z) :
  match SerialHandshake rx tx with
  | Shaken rest tx' =>
      exists pre,
        rx = pre ++ Some (chr "P") :: rest
        /\ ~ In (Some (chr "P")) pre
        /\ tx' = tx ++ repeat (chr "A") (idle_polls pre)
  | Knocking tx' =>
      ~ In (Some (chr "P")) rx
      /\ tx' = tx ++ repeat (chr "A") (idle_polls rx)
  end.
Proof.
  revert tx. induction rx as [|[b|] rx IH]; intro tx; cbn [SerialHandshake].
  - split; [intros []|]. cbn [idle_polls repeat]. now rewrite app_nil_r.
  - destruct (b =? chr "P") eqn:E.
    + apply Z.eqb_eq in E. subst b. exists []. cbn [app idle_polls repeat].
      split; [reflexivity|]. split; [intros []|]. now rewrite app_nil_r.
    + apply Z.eqb_neq in E. specialize (IH tx).
      destruct (SerialHandshake rx tx) as [rest tx'|tx'].
      * destruct IH as (pre & -> & Hn & ->). exists (Some b :: pre).
        split; [reflexivity|]. split; [|reflexivity].
        intros [H|H]; [congruence | exact (Hn H)].
      * destruct IH as [Hn ->]. split; [|reflexivity].
        intros [H|H]; [congruence | exact (Hn H)].
  - specialize (IH (Serial_write (chr "A") tx)).
    destruct (SerialHandshake rx (Serial_write (chr "A") tx))
      as [rest tx'|tx'].
    + destruct IH as (pre & -> & Hn & ->). exists (None :: pre).
      split; [reflexivity|].
      split; [intros [H|H]; [discriminate H | exact (Hn H)]|].
      unfold Serial_write. cbn [idle_polls repeat].
      now rewrite <- app_assoc.
    + destruct IH as [Hn ->].
      split; [intros [H|H]; [discriminate H | exact (Hn H)]|].
      unfold Serial_write. cbn [idle_polls repeat].
      now rewrite <- app_assoc.
Qed.

Example ex_handshake :
  SerialHandshake
    [None; None; Some (chr "x"); None; Some (chr "P"); Some (chr "<")] []
  = Shaken [Some (chr "<")] (chars "AAA").
Proof. reflexivity. Qed.

(** ** One stream, two readers *)

Lemma bytes_of_length (rx : list (option Z)) :
  (List.length (bytes_of rx) <= List.length rx)%nat.
Proof.
  induction rx as [|[b|] rx IH]; cbn [bytes_of List.length]; lia.
Qed.

(** What a call returns depends on the bytes and on the port alone. *)
Lemma call_determined (bytes tx : list Z) :
  (exists p tx' rest,
      (List.length rest < List.length bytes)%nat
      /\ forall bl bd uninit rx,
           bytes_of rx = bytes ->
           exists st rx',
             SerialReceiveAndParsePacket bl bd uninit rx tx
             = Returned (ptype p) st rx'
             /\ packet_of (ptype p) st = p
             /\ port st = tx'
             /\ bytes_of rx' = rest)
  \/ (forall bl bd uninit rx,
        bytes_of rx = bytes ->
        exists st, SerialReceiveAndParsePacket bl bd uninit rx tx = Waiting st).
Proof.
  destruct (upto is_start bytes) as [[[noise s] r1]|] eqn:U1.
  2:{ right. intros bl bd uninit rx Hrx.
      pose proof (receive_reference bl bd uninit rx tx) as R.
      rewrite Hrx in R. unfold reference in R. rewrite U1 in R.
      apply observe_Pending in R. eauto. }
  destruct (upto is_marker r1) as [[[label m] r2]|] eqn:U2.
  2:{ right. intros bl bd uninit rx Hrx.
      pose proof (receive_reference bl bd uninit rx tx) as R.
      rewrite Hrx in R. unfold reference in R. rewrite U1, U2 in R.
      apply observe_Pending in R. eauto. }
  destruct (upto is_end r2) as [[[payload e] rest]|] eqn:U3.
  2:{ right. intros bl bd uninit rx Hrx.
      pose proof (receive_reference bl bd uninit rx tx) as R.
      rewrite Hrx in R. unfold reference in R. rewrite U1, U2, U3 in R.
      apply observe_Pending in R. eauto. }
  left.
  exists (mkPacket (char m) (map char label) (map char payload)),
    (notices noise tx), rest.
  split.
  - apply upto_Some in U1 as (-> & _ & _). apply upto_Some in U2 as (-> & _ & _).
    apply upto_Some in U3 as (-> & _ & _).
    rewrite !length_app. cbn [List.length]. rewrite !length_app.
    cbn [List.length]. rewrite !length_app. cbn [List.length]. lia.
  - intros bl bd uninit rx Hrx.
    pose proof (receive_reference bl bd uninit rx tx) as R.
    rewrite Hrx in R. unfold reference in R. rewrite U1, U2, U3 in R.
    apply observe_Got in R as (rx' & -> & Hrest).
    eexists; exists rx'. split; [reflexivity|].
    unfold packet_of.
    cbn [ptype buffer_label buffer_data length_label length_data port].
    now rewrite !read_stored.
Qed.

Lemma receive_all_determined (f1 : nat) :
  forall (f2 : nat) (rx1 rx2 : list (option Z)) (bl1 bd1 bl2 bd2 : Z -> Z)
         (u1 u2 : nat -> Z) (tx : list Z),
    bytes_of rx1 = bytes_of rx2 ->
    (List.length (bytes_of rx1) <= f1)%nat ->
    (List.length (bytes_of rx1) <= f2)%nat ->
    receive_all f1 bl1 bd1 u1 rx1 tx = receive_all f2 bl2 bd2 u2 rx2 tx.
Proof.
  induction f1 as [|f1 IH]; intros f2 rx1 rx2 bl1 bd1 bl2 bd2 u1 u2 tx Hb L1 L2;
    destruct (call_determined (bytes_of rx1) tx)
      as [(p & tx' & rest & Hlt & Hcall)|Hwait].
  - lia.
  - destruct f2 as [|f2]; cbn [receive_all]; [reflexivity|].
    destruct (Hwait bl2 bd2 (u2 O) rx2 (eq_sym Hb)) as [st ->]. reflexivity.
  - destruct f2 as [|f2]; [lia|]. cbn [receive_all].
    destruct (Hcall bl1 bd1 (u1 O) rx1 eq_refl)
      as (st1 & rx1' & -> & P1 & T1 & R1).
    destruct (Hcall bl2 bd2 (u2 O) rx2 (eq_sym Hb))
      as (st2 & rx2' & -> & P2 & T2 & R2).
    rewrite P1, P2, T1, T2. f_equal.
    apply IH; [congruence | rewrite R1; lia | rewrite R1; lia].
  - cbn [receive_all].
    destruct (Hwait bl1 bd1 (u1 O) rx1 eq_refl) as [st1 ->].
    destruct f2 as [|f2]; cbn [receive_all]; [reflexivity|].
    destruct (Hwait bl2 bd2 (u2 O) rx2 (eq_sym Hb)) as [st2 ->]. reflexivity.
Qed.

(** C8: two readers that start afresh on the same byte stream return the
    same sequence of packets (type, label, data, in the same order),
    whatever their buffers and their [data_type] held before, and however
    the polls fall between the bytes for each of them. *)
Theorem decoder_deterministic (rx1 rx2 : list (option Z))
    (bl1 bd1 bl2 bd2 : Z -> Z) (u1 u2 : nat -> Z) (tx : list Z) :
  bytes_of rx1 = bytes_of rx2 ->
  decode_stream bl1 bd1 u1 rx1 tx = decode_stream bl2 bd2 u2 rx2 tx.
Proof.
  intro Hb. unfold decode_stream. apply receive_all_determined.
  - exact Hb.
  - apply bytes_of_length.
  - rewrite Hb. apply bytes_of_length.
Qed.

Lemma decoder_deterministic_witness :
  decode_stream zeros zeros (fun _ => 0)
    (map Some (chars "x<Ts|5><@k>")) []
  = decode_stream (fun i => i) (fun _ => 7) (fun k => Z.of_nat k)
      (None :: map Some (chars "x<Ts|") ++ None :: None
       :: map Some (chars "5><@k>")) []
  /\ decode_stream zeros zeros (fun _ => 0)
       (map Some (chars "x<Ts|5><@k>")) []
     = [mkPacket PACKET_INT (chars "Ts") (chars "5");
        mkPacket PACKET_CHAR [] (chars "k")].
Proof.
  split; [|reflexivity].
  apply (decoder_deterministic
           (map Some (chars "x<Ts|5><@k>"))
           (None :: map Some (chars "x<Ts|") ++ None :: None
            :: map Some (chars "5><@k>"))).
  reflexivity.
Defined.

(** ** Error text *)

(** C9, as the claim states it, fails: [SerialSendChar] takes one data
    char, so no call of it with the label "Err" writes what
    [SerialSendErrorText] writes for the message "SerInputErr". *)
Lemma error_text_counterexample :
  ~ exists data,
      SerialSendChar (chars "Err") data []
      = SerialSendErrorText (chars "SerInputErr") [].
Proof.
  intros [data H]. apply (f_equal (@List.length Z)) in H.
  unfold SerialSendChar, SerialSendErrorText, andthen, Serial_flush,
    Serial_write_str, Serial_write in H.
  rewrite !length_app in H. cbn in H. discriminate H.
Qed.

(** C9, amended: for every message, [SerialSendErrorText] writes START,
    'E' 'r' 'r', the CHAR marker, the chars of the message up to its NUL,
    END.  [SerialSendChar] carries one data char, not a message: with the
    label "Err" it writes the same bytes exactly when the message is that
    one char. *)
Theorem error_text_wire (text tx : list Z) :
  SerialSendErrorText text tx
  = tx ++ PACKET_START :: chars "Err"
       ++ PACKET_CHAR :: cstr text ++ [PACKET_END]
  /\ forall data,
       SerialSendErrorText text tx = SerialSendChar (chars "Err") data tx
       <-> cstr text = [uint8 data].
Proof.
  assert (E : SerialSendErrorText text tx
              = tx ++ PACKET_START :: chars "Err"
                   ++ PACKET_CHAR :: cstr text ++ [PACKET_END]).
  { unfold SerialSendErrorText, andthen, Serial_flush, Serial_write_str,
      Serial_write. rewrite <- !app_assoc. reflexivity. }
  split; [exact E|].
  intro data. rewrite E.
  assert (C : SerialSendChar (chars "Err") data tx
              = tx ++ PACKET_START :: chars "Err"
                   ++ PACKET_CHAR :: [uint8 data] ++ [PACKET_END]).
  { unfold SerialSendChar, andthen, Serial_flush, Serial_write_str,
      Serial_write. rewrite <- !app_assoc. reflexivity. }
  rewrite C. split.
  - intro H. apply app_inv_head in H. injection H as H.
    change [uint8 data; PACKET_END] with ([uint8 data] ++ [PACKET_END]) in H.
    now apply app_inv_tail in H.
  - now intros ->.
Qed.

Example ex_error_text :
  SerialSendErrorText (chars "SerInputErr") [] = chars "<Err@SerInputErr>"
  /\ SerialSendErrorText (chars "x") [] = SerialSendChar (chars "Err") 120 [].
Proof. split; reflexivity. Qed.

(** ** The returned type *)

(** C10: the value a call returns is the marker that ended the label, INT
    or CHAR, never the INT2 marker: the bytes the call has used are noise
    without START, START, a label without INT or CHAR marker, the returned
    marker, data without END, END; the buffers hold that label and that
    data.  The INT2 marker ends no label: received while the label is
    collected, it is stored as a label char like any other. *)
Theorem returned_type_is_marker :
  (forall (bl bd : Z -> Z) (uninit : Z) (rx : list (option Z)) (tx : list Z)
          (v : Z) (st : state) (rx' : list (option Z)),
      SerialReceiveAndParsePacket bl bd uninit rx tx = Returned v st rx' ->
      (v = PACKET_INT \/ v = PACKET_CHAR)
      /\ v <> PACKET_INT2
      /\ exists noise label payload,
           bytes_of rx
           = noise ++ PACKET_START :: label
             ++ v :: payload ++ PACKET_END :: bytes_of rx'
           /\ forallb (fun b => negb (is_start b)) noise = true
           /\ forallb (fun b => negb (is_marker b)) label = true
           /\ forallb (fun b => negb (is_end b)) payload = true
           /\ packet_of v st = mkPacket v (map char label) (map char payload))
  /\ (forall s : state,
        flag_ser_label s = true ->
        exists s',
          on_byte s PACKET_INT2 = Continue s'
          /\ flag_ser_label s' = true
          /\ length_label s' = length_label s + 1
          /\ buffer_label s' (length_label s) = PACKET_INT2).
Proof.
  split.
  - intros bl bd uninit rx tx v st rx' H.
    destruct (returned_frame bl bd uninit rx tx v st rx' H) as (M & F).
    split; [exact M|].
    split; [destruct M as [-> | ->]; discriminate | exact F].
  - intros s Hs. unfold on_byte. rewrite Hs.
    change ((PACKET_INT2 =? PACKET_INT) || (PACKET_INT2 =? PACKET_CHAR))
      with false.
    eexists. split; [reflexivity|].
    cbn [flag_ser_label length_label buffer_label].
    split; [reflexivity|]. split; [reflexivity|]. apply store_same.
Qed.

Lemma returned_type_is_marker_witness :
  SerialReceiveAndParsePacket zeros zeros 0
    (map Some (chars "<a~b|x>")) []
  = Returned PACKET_INT
      (state_of (SerialReceiveAndParsePacket zeros zeros 0
                   (map Some (chars "<a~b|x>")) []))
      []
  /\ (PACKET_INT = PACKET_INT \/ PACKET_INT = PACKET_CHAR)
  /\ PACKET_INT <> PACKET_INT2.
Proof.
  assert (E : SerialReceiveAndParsePacket zeros zeros 0
                (map Some (chars "<a~b|x>")) []
              = Returned PACKET_INT
                  (state_of (SerialReceiveAndParsePacket zeros zeros 0
                               (map Some (chars "<a~b|x>")) []))
                  [])
    by (vm_compute; reflexivity).
  split; [exact E|].
  destruct (proj1 returned_type_is_marker _ _ _ _ _ _ _ _ E) as (M & N & _).
  split; [exact M | exact N].
Defined.

Example ex_tilde_in_label :
  packet_of PACKET_INT
    (state_of (SerialReceiveAndParsePacket zeros zeros 0
                 (map Some (chars "<a~b|x>")) []))
  = mkPacket PACKET_INT (chars "a~b") (chars "x").
Proof. vm_compute. reflexivity. Qed.

(** * Further properties of the library *)

(** ** The bytes of a long *)

Lemma long_bytes (v : Z) :
  0 <= v < 2 ^ 32 ->
  v = (v / 2 ^ 24) mod 256 * 2 ^ 24 + (v / 2 ^ 16) mod 256 * 2 ^ 16
      + (v / 2 ^ 8) mod 256 * 2 ^ 8 + v mod 256.
Proof.
  intro H.
  change (2 ^ 32) with 4294967296 in H.
  change (2 ^ 24) with 16777216. change (2 ^ 16) with 65536.
  change (2 ^ 8) with 256.
  Z.to_euclidean_division_equations. lia.
Qed.

Lemma SerialWriteLongInt_bytes (val : Z) :
  SerialWriteLongInt val []
  = [(ulong val / 2 ^ 24) mod 256; (ulong val / 2 ^ 16) mod 256;
     (ulong val / 2 ^ 8) mod 256; ulong val mod 256].
Proof.
  unfold SerialWriteLongInt, andthen, Serial_write, uint8. cbn [app].
  change 255 with (Z.ones 8).
  rewrite !Z.land_ones, !Z.shiftr_div_pow2 by lia.
  change (2 ^ 8) with 256. now rewrite !Z.mod_mod by lia.
Qed.

(** X1: [SerialWriteLongInt] writes four bytes, most significant first,
    whose big-endian value is the argument modulo 2^32; two arguments are
    written as the same bytes exactly when they agree modulo 2^32. *)
Theorem long_int_big_endian (val val' : Z) :
  (exists b0 b1 b2 b3,
      SerialWriteLongInt val [] = [b0; b1; b2; b3]
      /\ Forall is_char [b0; b1; b2; b3]
      /\ b0 * 2 ^ 24 + b1 * 2 ^ 16 + b2 * 2 ^ 8 + b3 = val mod 2 ^ 32)
  /\ (SerialWriteLongInt val [] = SerialWriteLongInt val' []
      <-> val mod 2 ^ 32 = val' mod 2 ^ 32).
Proof.
  assert (R : forall v, 0 <= ulong v < 2 ^ 32)
    by (intro v; apply Z.mod_pos_bound; lia).
  split.
  - do 4 eexists. split; [apply SerialWriteLongInt_bytes|]. split.
    + repeat constructor; apply Z.mod_pos_bound; lia.
    + symmetry. apply (long_bytes (ulong val)), R.
  - rewrite !SerialWriteLongInt_bytes. fold (ulong val) (ulong val'). split.
    + intro H.
      pose proof (f_equal (fun l => nth 0 l 0) H) as H0.
      pose proof (f_equal (fun l => nth 1 l 0) H) as H1.
      pose proof (f_equal (fun l => nth 2 l 0) H) as H2.
      pose proof (f_equal (fun l => nth 3 l 0) H) as H3.
      cbn [nth] in H0, H1, H2, H3.
      pose proof (long_bytes _ (R val)) as A.
      pose proof (long_bytes _ (R val')) as B.
      rewrite H0, H1, H2, H3 in A. rewrite <- B in A. exact A.
    + now intros ->.
Qed.

(** ** The number sent as an error *)

(** X2: [SerialSendErrorNumAsText] sends the Err packet with one data byte,
    the low eight bits of the number, not its digits: it writes what
    [SerialSendChar] writes for the label "Err" and that number, and two
    numbers are told apart on the wire only if they differ modulo 256. *)
Theorem error_num_low_byte (num_data num' : Z) (tx : list Z) :
  SerialSendErrorNumAsText num_data tx
  = tx ++ chars "<Err@" ++ [num_data mod 256] ++ chars ">"
  /\ SerialSendErrorNumAsText num_data tx
     = SerialSendChar (chars "Err") num_data tx
  /\ (SerialSendErrorNumAsText num_data tx = SerialSendErrorNumAsText num' tx
      <-> num_data mod 256 = num' mod 256).
Proof.
  assert (E : forall n, SerialSendErrorNumAsText n tx
                        = tx ++ chars "<Err@" ++ [n mod 256] ++ chars ">").
  { intro n. unfold SerialSendErrorNumAsText, andthen, Serial_flush,
      Serial_write_str, Serial_write. rewrite <- !app_assoc. reflexivity. }
  split; [apply E|]. split.
  - unfold SerialSendErrorNumAsText, SerialSendChar. reflexivity.
  - rewrite !E. split.
    + intro H. apply app_inv_head in H. cbn in H. now injection H.
    + now intros ->.
Qed.

(** ** How a call of the reader ends *)

(** X3: a call of the reader never leaves its loop through the loop
    condition (the end of the function, where nothing is returned, is not
    reached): it returns from inside the loop with [flag_ser_end] set, or it
    is still polling with [flag_ser_end] clear. *)
Theorem no_fall_through (bl bd : Z -> Z) (uninit : Z)
    (rx : list (option Z)) (tx : list Z) :
  match SerialReceiveAndParsePacket bl bd uninit rx tx with
  | Returned v st _ => flag_ser_end st = true /\ v = data_type st
  | Waiting st => flag_ser_end st = false
  | NoReturn _ _ => False
  end.
Proof.
  pose proof (receive_reference bl bd uninit rx tx) as R.
  unfold reference in R.
  destruct (upto is_start (bytes_of rx)) as [[[noise s] r1]|].
  2:{ apply observe_Pending in R. now rewrite R. }
  destruct (upto is_marker r1) as [[[label m] r2]|].
  2:{ apply observe_Pending in R. now rewrite R. }
  destruct (upto is_end r2) as [[[payload e] rest]|].
  2:{ apply observe_Pending in R. now rewrite R. }
  apply observe_Got in R as (rx' & -> & _). now split.
Qed.


(** ** Bytes outside a packet *)

Lemma notices_bytes (noise tx : list Z) :
  notices noise tx
  = tx ++ List.concat (map (fun b => chars "<Err@SerInputErr>" ++ [char b]) noise).
Proof.
  revert tx. induction noise as [|b noise IH]; intro tx; cbn [notices map List.concat].
  - now rewrite app_nil_r.
  - unfold andthen. rewrite IH, notice_bytes, <- !app_assoc. reflexivity.
Qed.

(** X5: on bytes none of which is START the reader never returns and never
    stops reading: it is still polling when they are used up, has written
    nothing to either buffer, and has sent for each byte, in order, the
    packet "<Err@SerInputErr>" followed by the byte itself, 18 bytes for
    each byte received. *)
Theorem noise_only (bl bd : Z -> Z) (uninit : Z)
    (rx : list (option Z)) (tx : list Z) :
  forallb (fun b => negb (is_start b)) (bytes_of rx) = true ->
  exists st,
    SerialReceiveAndParsePacket bl bd uninit rx tx = Waiting st
    /\ buffer_label st = bl /\ buffer_data st = bd
    /\ flag_ser_label st = false /\ flag_ser_data st = false
    /\ port st
       = tx ++ List.concat (map (fun b => chars "<Err@SerInputErr>" ++ [char b])
                         (bytes_of rx))
    /\ List.length (port st)
       = (List.length tx + 18 * List.length (bytes_of rx))%nat.
Proof.
  intro H. pose proof (receive_reference bl bd uninit rx tx) as R.
  unfold reference in R. rewrite (upto_absent _ _ H) in R.
  apply observe_Pending in R. eexists. split; [exact R|].
  cbn [buffer_label buffer_data flag_ser_label flag_ser_data port].
  repeat (split; [reflexivity|]). rewrite notices_bytes.
  split; [reflexivity|]. rewrite length_app. f_equal.
  clear. induction (bytes_of rx) as [|b l IH]; [reflexivity|].
  cbn [map List.concat]. rewrite !length_app, IH. cbn [List.length].
  change (List.length (chars "<Err@SerInputErr>")) with 17%nat. lia.
Qed.

Lemma noise_only_witness :
  exists st,
    SerialReceiveAndParsePacket zeros zeros 0
      (map Some (chars "ab")) [] = Waiting st
    /\ port st = chars "<Err@SerInputErr>a<Err@SerInputErr>b".
Proof.
  destruct (noise_only zeros zeros 0 (map Some (chars "ab")) [] eq_refl)
    as (st & E & _ & _ & _ & _ & P & _).
  exists st. split; [exact E | exact P].
Defined.

(** ** Packets one after the other *)

Lemma send_app (msg : message) (tx : list Z) : send msg tx = tx ++ send msg [].
Proof.
  destruct msg; cbn [send];
    unfold SerialSendInt, SerialSendIntPair, SerialSendChar,
      SerialSendCharPair, andthen, Serial_flush, Serial_write_str.
  - rewrite (SerialWriteLongInt_app ts (Serial_write _ (_ ++ cstr text))).
    rewrite (SerialWriteLongInt_app ts (Serial_write _ (_ [] ++ _))).
    unfold Serial_write. cbn [app]. rewrite <- !app_assoc. reflexivity.
  - rewrite (SerialWriteLongInt_app int2 (SerialWriteLongInt _ (_ _ (_ tx ++ _)))),
      (SerialWriteLongInt_app int1 (Serial_write _ (_ tx ++ _))).
    rewrite (SerialWriteLongInt_app int2 (SerialWriteLongInt _ (_ _ (_ [] ++ _)))),
      (SerialWriteLongInt_app int1 (Serial_write _ (_ [] ++ _))).
    unfold Serial_write. cbn [app]. rewrite <- !app_assoc. reflexivity.
  - unfold Serial_write. cbn [app]. rewrite <- !app_assoc. reflexivity.
  - unfold Serial_write. cbn [app]. rewrite <- !app_assoc. reflexivity.
Qed.

Lemma send_all_cons (msg : message) (msgs : list message) :
  send_all (msg :: msgs) [] = send msg [] ++ send_all msgs [].
Proof.
  unfold send_all. cbn [fold_left]. generalize (send msg []) as tx.
  induction msgs as [|m msgs IH]; intro tx; cbn [fold_left].
  - now rewrite app_nil_r.
  - rewrite IH, (IH (send m [])), send_app, app_assoc. reflexivity.
Qed.

(** A well-formed frame between noise and further bytes. *)
Lemma frame_between (noise label data rest : list Z) (t : Z) :
  forallb (fun b => negb (is_start b)) noise = true ->
  is_marker t = true ->
  forallb label_char label = true ->
  forallb (fun b => negb (is_end b)) data = true ->
  Forall is_char data ->
  forall (bl bd : Z -> Z) (uninit : Z) (rx : list (option Z)) (tx : list Z),
    bytes_of rx
    = noise ++ PACKET_START :: label ++ t :: data ++ PACKET_END :: rest ->
    exists st rx',
      SerialReceiveAndParsePacket bl bd uninit rx tx = Returned t st rx'
      /\ packet_of t st = mkPacket t label data
      /\ buffer_label st (length_label st) = 0
      /\ buffer_data st (length_data st) = 0
      /\ bytes_of rx' = rest
      /\ port st = notices noise tx.
Proof.
  intros Hn Ht Hl Hd Hc bl bd uninit rx tx Hrx.
  pose proof (receive_reference bl bd uninit rx tx) as R.
  rewrite Hrx in R. unfold reference in R.
  destruct (label_char_plain _ Hl) as [Hl1 Hl2].
  rewrite (upto_first is_start noise _ PACKET_START Hn eq_refl) in R.
  rewrite (upto_first is_marker label _ t Hl1 Ht) in R.
  rewrite (upto_first is_end data rest PACKET_END Hd eq_refl) in R.
  rewrite (is_marker_char t Ht) in R.
  apply observe_Got in R as (rx' & -> & Hrest).
  eexists; exists rx'. split; [reflexivity|].
  unfold packet_of.
  cbn [ptype buffer_label buffer_data length_label length_data port].
  rewrite !read_stored, !store_same, (map_char_id _ Hl2), (map_char_id _ Hc).
  auto.
Qed.

Lemma message_between (msg : message) (noise rest : list Z) :
  forallb (fun b => negb (is_start b)) noise = true ->
  decodable msg = true ->
  forall (bl bd : Z -> Z) (uninit : Z) (rx : list (option Z)) (tx : list Z),
    bytes_of rx = noise ++ send msg [] ++ rest ->
    exists st rx',
      SerialReceiveAndParsePacket bl bd uninit rx tx
      = Returned (ptype (sent_packet msg)) st rx'
      /\ packet_of (ptype (sent_packet msg)) st = sent_packet msg
      /\ buffer_label st (length_label st) = 0
      /\ buffer_data st (length_data st) = 0
      /\ bytes_of rx' = rest
      /\ port st = notices noise tx.
Proof.
  intros Hn Hm bl bd uninit rx tx Hrx.
  rewrite send_frame in Hrx. unfold decodable in Hm.
  pose proof (sent_data_chars msg) as Hc.
  destruct (sent_packet msg) as [t label data].
  cbn [ptype plabel pdata] in *.
  apply andb_prop in Hm as [Hm Hd]. apply andb_prop in Hm as [Ht Hl].
  apply (frame_between noise label data rest t Hn Ht Hl Hd Hc).
  rewrite Hrx. cbn [app]. rewrite <- app_assoc. cbn [app].
  rewrite <- app_assoc. reflexivity.
Qed.

(** X6: a message that the reader can give back, sent between bytes that
    do not belong to it: whatever came before it (no START among it) is
    answered by one notice per byte, the call returns the packet as it was
    sent, and the bytes that follow its END are left unread, all of them. *)
Theorem packet_between (msg : message) (noise rest : list Z)
    (bl bd : Z -> Z) (uninit : Z) (rx : list (option Z)) (tx : list Z) :
  forallb (fun b => negb (is_start b)) noise = true ->
  decodable msg = true ->
  bytes_of rx = noise ++ send msg [] ++ rest ->
  exists st rx',
    SerialReceiveAndParsePacket bl bd uninit rx tx
    = Returned (ptype (sent_packet msg)) st rx'
    /\ packet_of (ptype (sent_packet msg)) st = sent_packet msg
    /\ bytes_of rx' = rest
    /\ port st
       = tx ++ List.concat
                 (map (fun b => chars "<Err@SerInputErr>" ++ [char b]) noise).
Proof.
  intros Hn Hm Hrx.
  destruct (message_between msg noise rest Hn Hm bl bd uninit rx tx Hrx)
    as (st & rx' & E & P & _ & _ & R & T).
  exists st, rx'. rewrite <- notices_bytes. auto.
Qed.

Lemma packet_between_witness :
  exists st rx',
    SerialReceiveAndParsePacket zeros zeros 0
      (map Some (chars "a" ++ send (Char (chars "Go") 49) [] ++ chars "<x"))
      []
    = Returned PACKET_CHAR st rx'
    /\ packet_of PACKET_CHAR st = mkPacket PACKET_CHAR (chars "Go") [49]
    /\ bytes_of rx' = chars "<x".
Proof.
  destruct (packet_between (Char (chars "Go") 49) (chars "a") (chars "<x")
              zeros zeros 0
              (map Some (chars "a" ++ send (Char (chars "Go") 49) []
                         ++ chars "<x")) []
              eq_refl eq_refl (bytes_of_Some _))
    as (st & rx' & E & P & R & _).
  exists st, rx'. auto.
Defined.

Lemma receive_all_nothing (fuel : nat) (bl bd : Z -> Z) (uninit : nat -> Z)
    (rx : list (option Z)) (tx : list Z) :
  bytes_of rx = [] -> receive_all fuel bl bd uninit rx tx = [].
Proof.
  intro H. destruct fuel as [|fuel]; cbn [receive_all]; [reflexivity|].
  pose proof (receive_reference bl bd (uninit O) rx tx) as R.
  rewrite H in R. apply observe_Pending in R. now rewrite R.
Qed.

Lemma send_nonempty (msg : message) :
  (1 <= List.length (send msg []))%nat.
Proof. rewrite send_frame. cbn [List.length]. lia. Qed.

(** X7: messages that the reader can give back, sent one after the other
    and read by calling the reader again and again on the same buffers,
    come back as the same packets in the same order, and nothing else
    does. *)
Theorem stream_round_trip (msgs : list message) :
  forallb decodable msgs = true ->
  forall (bl bd : Z -> Z) (uninit : nat -> Z) (rx : list (option Z))
         (tx : list Z),
    bytes_of rx = send_all msgs [] ->
    decode_stream bl bd uninit rx tx = map sent_packet msgs.
Proof.
  induction msgs as [|msg msgs IH]; intros Hm bl bd uninit rx tx Hrx.
  - apply receive_all_nothing. exact Hrx.
  - cbn [forallb] in Hm. apply andb_prop in Hm as [Hd Hm].
    rewrite send_all_cons in Hrx.
    destruct (message_between msg [] (send_all msgs []) eq_refl Hd
                bl bd (uninit O) rx tx Hrx)
      as (st & rx' & E & P & _ & _ & R & T).
    pose proof (bytes_of_length rx) as L. rewrite Hrx, length_app in L.
    pose proof (send_nonempty msg) as L1.
    unfold decode_stream. destruct (List.length rx) as [|n] eqn:Ln; [lia|].
    cbn [receive_all map]. rewrite E, P. f_equal.
    rewrite <- (IH Hm (buffer_label st) (buffer_data st)
                  (fun k => uninit (S k)) rx' (port st) R).
    unfold decode_stream. apply receive_all_determined.
    + reflexivity.
    + rewrite R. lia.
    + apply bytes_of_length.
Qed.

Lemma stream_round_trip_witness :
  decode_stream zeros zeros (fun _ => 0)
    (map Some (send_all [SingleInt (chars "Ts") 5; Char (chars "Go") 49] []))
    []
  = [mkPacket PACKET_INT (chars "Ts") [0; 0; 0; 5];
     mkPacket PACKET_CHAR (chars "Go") [49]].
Proof.
  apply (stream_round_trip [SingleInt (chars "Ts") 5; Char (chars "Go") 49]
           eq_refl zeros zeros (fun _ => 0)).
  apply bytes_of_Some.
Defined.

(** ** Copying a char array *)

Lemma copy_loop_result (fuel : nat) :
  forall (i max_num_data : Z) (source target : Z -> Z) (r : Z),
    0 <= i <= r -> r <= Z.max 0 max_num_data ->
    Z.of_nat fuel = Z.max 0 (max_num_data - i) ->
    (forall j, i <= j < r -> source j <> 0) ->
    (r = Z.max 0 max_num_data \/ source r = 0) ->
    exists target',
      copy_loop fuel i max_num_data source target = (r, target')
      /\ forall j, target' j
                   = if (i <=? j) && (j <? r) then source j else target j.
Proof.
  induction fuel as [|fuel IH]; intros i mx source target r Hi Hr Hf Hs He;
    cbn [copy_loop].
  - assert (r = i) by lia. subst r. exists target. split; [reflexivity|].
    intro j. destruct (Z.leb_spec i j), (Z.ltb_spec j i); cbn [andb];
      try reflexivity; lia.
  - assert (Hlt : (i <? mx) = true) by (apply Z.ltb_lt; lia). rewrite Hlt.
    destruct (source i =? 0) eqn:E.
    + apply Z.eqb_eq in E.
      assert (r = i).
      { destruct (Z.eq_dec r i) as [|N]; [assumption|].
        exfalso. apply (Hs i); [lia | exact E]. }
      subst r. exists target. split; [reflexivity|].
      intro j. destruct (Z.leb_spec i j), (Z.ltb_spec j i); cbn [andb];
        try reflexivity; lia.
    + apply Z.eqb_neq in E.
      assert (i + 1 <= r).
      { destruct (Z.eq_dec r i) as [->|N]; [|lia].
        exfalso. destruct He as [He|He]; [lia | exact (E He)]. }
      destruct (IH (i + 1) mx source (store target i (source i)) r)
        as (t' & Ht & Hc); try lia; try assumption.
      { intros j Hj. apply Hs. lia. }
      exists t'. split; [exact Ht|]. intro j. rewrite Hc.
      destruct (Z.leb_spec (i + 1) j), (Z.leb_spec i j), (Z.ltb_spec j r);
        cbn [andb]; try reflexivity; try lia;
        try (apply store_other; lia).
      assert (j = i) by lia. subst j. apply store_same.
Qed.

Lemma strlen_from_result (fuel : nat) :
  forall (m : Z -> Z) (i r : Z),
    i <= r -> (forall j, i <= j < r -> m j <> 0) -> m r = 0 ->
    (Z.to_nat (r - i) < fuel)%nat ->
    strlen_from fuel m i = Some r.
Proof.
  induction fuel as [|fuel IH]; intros m i r Hi Hn Hr Hf; [lia|].
  cbn [strlen_from]. destruct (m i =? 0) eqn:E.
  - apply Z.eqb_eq in E. destruct (Z.eq_dec r i) as [->|N]; [reflexivity|].
    exfalso. apply (Hn i); [lia | exact E].
  - apply Z.eqb_neq in E.
    assert (i + 1 <= r).
    { destruct (Z.eq_dec r i) as [->|N]; [|lia]. exfalso. exact (E Hr). }
    apply IH; try lia; try assumption. intros j Hj. apply Hn. lia.
Qed.

Lemma first_nul (n : nat) :
  forall (source : Z -> Z) (i : Z),
    exists r, i <= r <= i + Z.of_nat n
              /\ (forall j, i <= j < r -> source j <> 0)
              /\ (r = i + Z.of_nat n \/ source r = 0).
Proof.
  induction n as [|n IH]; intros source i.
  - exists i. split; [lia|]. split; [intros j Hj; lia | left; lia].
  - destruct (Z.eq_dec (source i) 0) as [E|E].
    + exists i. split; [lia|]. split; [intros j Hj; lia | now right].
    + destruct (IH source (i + 1)) as (r & Hr & Hs & He).
      exists r. split; [lia|]. split.
      * intros j Hj. destruct (Z.eq_dec j i) as [->|N]; [exact E|].
        apply Hs. lia.
      * destruct He as [He|He]; [left; lia | now right].
Qed.

(** The copy, for the count [r] of chars that the loop passes. *)
Lemma copy_counted (source target : Z -> Z) (max_num_data r : Z)
    (fuel : nat) :
  0 <= r <= Z.max 0 max_num_data ->
  (forall j, 0 <= j < r -> source j <> 0) ->
  (r = Z.max 0 max_num_data \/ source r = 0) ->
  (Z.to_nat r < fuel)%nat ->
  fst (CopyCharArray fuel source target max_num_data) = Some r
  /\ forall j,
       snd (CopyCharArray fuel source target max_num_data) j
       = if j =? r then 0
         else if (0 <=? j) && (j <? r) then source j else target j.
Proof.
  intros Hr Hs He Hf. unfold CopyCharArray.
  destruct (copy_loop_result (Z.to_nat max_num_data) 0 max_num_data
              source target r) as (t' & -> & Hc);
    try lia; try assumption.
  cbn [fst snd].
  assert (C : forall j, store t' r 0 j
                        = if j =? r then 0
                          else if (0 <=? j) && (j <? r) then source j
                               else target j).
  { intro j. unfold store. destruct (j =? r); [reflexivity | apply Hc]. }
  split; [|exact C].
  apply strlen_from_result;
    [lia | | apply store_same | rewrite Z.sub_0_r; exact Hf].
  intros j Hj. rewrite C.
  destruct (Z.eqb_spec j r); [lia|].
  destruct (Z.leb_spec 0 j), (Z.ltb_spec j r); cbn [andb]; try lia.
  now apply Hs.
Qed.

(** X8: [CopyCharArray] copies the chars of [source] up to its first NUL,
    [max_num_data] of them at most, and returns their count r, between 0
    and [max_num_data]: cells 0..r-1 of [target] hold the copied chars, none
    of them NUL, cell r holds NUL, and every other cell of [target] is as
    it was. *)
Theorem copy_char_array (source target : Z -> Z) (max_num_data : Z) :
  exists r,
    0 <= r <= Z.max 0 max_num_data
    /\ (forall j, 0 <= j < r -> source j <> 0)
    /\ (r = Z.max 0 max_num_data \/ source r = 0)
    /\ forall fuel,
         (Z.to_nat r < fuel)%nat ->
         fst (CopyCharArray fuel source target max_num_data) = Some r
         /\ forall j,
              snd (CopyCharArray fuel source target max_num_data) j
              = if j =? r then 0
                else if (0 <=? j) && (j <? r) then source j else target j.
Proof.
  destruct (first_nul (Z.to_nat max_num_data) source 0) as (r & Hr & Hs & He).
  exists r. split; [lia|]. split; [exact Hs|]. split; [lia|].
  intros fuel Hf. apply copy_counted; try assumption; lia.
Qed.

(** X9: the edges of [CopyCharArray].  When [source] has no NUL among its
    first [max_num_data] chars, all of them are copied and the NUL goes to
    cell [max_num_data] itself: the target needs [max_num_data] + 1 cells.
    When [max_num_data] is zero or negative nothing is copied, cell 0 of
    the target is set to NUL all the same, and 0 is returned. *)
Theorem copy_char_array_edges (source target : Z -> Z) (max_num_data : Z)
    (fuel : nat) :
  (0 <= max_num_data ->
   (forall j, 0 <= j < max_num_data -> source j <> 0) ->
   (Z.to_nat max_num_data < fuel)%nat ->
   fst (CopyCharArray fuel source target max_num_data) = Some max_num_data
   /\ snd (CopyCharArray fuel source target max_num_data) max_num_data = 0
   /\ forall j, 0 <= j < max_num_data ->
        snd (CopyCharArray fuel source target max_num_data) j = source j)
  /\ (max_num_data <= 0 -> (0 < fuel)%nat ->
      fst (CopyCharArray fuel source target max_num_data) = Some 0
      /\ snd (CopyCharArray fuel source target max_num_data) 0 = 0
      /\ forall j, j <> 0 ->
           snd (CopyCharArray fuel source target max_num_data) j = target j).
Proof.
  split.
  - intros Hm Hs Hf.
    destruct (copy_counted source target max_num_data max_num_data fuel)
      as (R & C); try lia; try assumption; try (left; lia).
    split; [exact R|]. split.
    + rewrite C, Z.eqb_refl. reflexivity.
    + intros j Hj. rewrite C. destruct (Z.eqb_spec j max_num_data); [lia|].
      destruct (Z.leb_spec 0 j), (Z.ltb_spec j max_num_data); cbn [andb];
        try reflexivity; lia.
  - intros Hm Hf.
    destruct (copy_counted source target max_num_data 0 fuel)
      as (R & C); try lia; try (left; lia).
    split; [exact R|]. split.
    + rewrite C. reflexivity.
    + intros j Hj. rewrite C. destruct (Z.eqb_spec j 0); [contradiction|].
      destruct (Z.leb_spec 0 j), (Z.ltb_spec j 0); cbn [andb];
        try reflexivity; lia.
Qed.

Lemma copy_char_array_edges_witness :
  fst (CopyCharArray 4 (fun _ => 120) zeros 3) = Some 3
  /\ snd (CopyCharArray 4 (fun _ => 120) zeros 3) 3 = 0
  /\ fst (CopyCharArray 1 (fun _ => 120) (fun _ => 7) (-2)) = Some 0
  /\ snd (CopyCharArray 1 (fun _ => 120) (fun _ => 7) (-2)) 0 = 0.
Proof.
  destruct (copy_char_array_edges (fun _ => 120) zeros 3 4) as [H _].
  destruct (H ltac:(lia) ltac:(intros; discriminate) ltac:(cbn; lia))
    as (R & C & _).
  destruct (copy_char_array_edges (fun _ => 120) (fun _ => 7) (-2) 1)
    as [_ H'].
  destruct (H' ltac:(lia) ltac:(lia)) as (R' & C' & _).
  auto.
Defined.

(** ** From the reader's buffers to a string *)

Lemma cstr_prefix (l : list Z) :
  exists rest,
    l = cstr l ++ rest
    /\ Forall (fun c => c <> 0) (cstr l)
    /\ (rest = [] \/ exists rest', rest = 0 :: rest').
Proof.
  induction l as [|c l (rest & E & N & Z0)]; cbn [cstr].
  - exists []. auto.
  - destruct (Z.eqb_spec c 0) as [->|Hc].
    + exists (0 :: l). split; [reflexivity|]. split; [constructor|].
      right. now exists l.
    + exists rest. cbn [app]. split; [now rewrite <- E|].
      split; [now constructor | exact Z0].
Qed.

Lemma nth_map_seq (f : nat -> Z) (n k : nat) (d : Z) :
  (k < n)%nat -> nth k (map f (seq 0 n)) d = f k.
Proof.
  intro H. rewrite (nth_indep _ d (f O))
    by (now rewrite length_map, length_seq).
  rewrite (map_nth f). now rewrite seq_nth.
Qed.

Lemma read_cell (m : Z -> Z) (l : list Z) (k : nat) :
  read m (len l) = l -> (k < List.length l)%nat ->
  m (Z.of_nat k) = nth k l 0.
Proof.
  intros H Hk. rewrite <- H at 1. unfold read, len. rewrite Nat2Z.id.
  now rewrite nth_map_seq.
Qed.

(** Copying a buffer that holds [l] and then a NUL gives the chars of [l]
    before its first NUL. *)
Lemma copy_of_buffer (m target : Z -> Z) (l : list Z) (max_num_data : Z)
    (fuel : nat) :
  read m (len l) = l -> m (len l) = 0 ->
  len (cstr l) <= max_num_data ->
  (List.length (cstr l) < fuel)%nat ->
  fst (CopyCharArray fuel m target max_num_data) = Some (len (cstr l))
  /\ read (snd (CopyCharArray fuel m target max_num_data)) (len (cstr l))
     = cstr l
  /\ snd (CopyCharArray fuel m target max_num_data) (len (cstr l)) = 0.
Proof.
  intros Hm Hz Hmax Hf.
  destruct (cstr_prefix l) as (rest & E & N & R).
  assert (Ll : (List.length l
                = List.length (cstr l) + List.length rest)%nat)
    by (rewrite E at 1; apply length_app).
  assert (Hcell : forall k, (k < List.length (cstr l))%nat ->
                            m (Z.of_nat k) = nth k (cstr l) 0).
  { intros k Hk. rewrite (read_cell m l k Hm) by lia.
    rewrite E at 1. now apply app_nth1. }
  destruct (copy_counted m target max_num_data (len (cstr l)) fuel)
    as (Rv & C).
  - pose proof (len_nonneg (cstr l)). lia.
  - intros j Hj. unfold len in Hj.
    rewrite <- (Z2Nat.id j) by lia. rewrite Hcell by lia.
    rewrite Forall_forall in N. apply N, nth_In. lia.
  - right. destruct R as [->|(rest' & ->)].
    + rewrite app_nil_r in E. now rewrite <- E.
    + unfold len. rewrite (read_cell m l _ Hm) by (rewrite Ll; cbn; lia).
      rewrite E at 2. rewrite app_nth2, Nat.sub_diag by lia. reflexivity.
  - unfold len. now rewrite Nat2Z.id.
  - split; [exact Rv|]. split.
    + unfold read, len. rewrite Nat2Z.id.
      apply (nth_ext _ _ 0 0); [now rewrite length_map, length_seq|].
      intros k Hk. rewrite length_map, length_seq in Hk.
      rewrite nth_map_seq by assumption.
      rewrite C. unfold len.
      destruct (Z.eqb_spec (Z.of_nat k) (Z.of_nat (List.length (cstr l))));
        [lia|].
      destruct (Z.leb_spec 0 (Z.of_nat k)),
        (Z.ltb_spec (Z.of_nat k) (Z.of_nat (List.length (cstr l))));
        cbn [andb]; try lia.
      now apply Hcell.
    + rewrite C, Z.eqb_refl. reflexivity.
Qed.

(** The two buffers after a return. *)
Lemma returned_buffers (bl bd : Z -> Z) (uninit : Z) (rx : list (option Z))
    (tx : list Z) (v : Z) (st : state) (rx' : list (option Z)) :
  SerialReceiveAndParsePacket bl bd uninit rx tx = Returned v st rx' ->
  exists label data,
    length_label st = len label /\ length_data st = len data
    /\ read (buffer_label st) (len label) = label
    /\ read (buffer_data st) (len data) = data
    /\ buffer_label st (len label) = 0
    /\ buffer_data st (len data) = 0.
Proof.
  intro H.
  pose proof (receive_reference bl bd uninit rx tx) as R.
  rewrite H in R. cbn [observe] in R. unfold reference in R.
  destruct (upto is_start (bytes_of rx)) as [[[noise s] r1]|];
    [|discriminate R].
  destruct (upto is_marker r1) as [[[label m] r2]|]; [|discriminate R].
  destruct (upto is_end r2) as [[[payload e] rest]|]; [|discriminate R].
  injection R as -> -> _.
  exists (map char label), (map char payload).
  cbn [length_label length_data buffer_label buffer_data].
  unfold len. rewrite !length_map. fold (len label) (len payload).
  rewrite !read_stored, !store_same. repeat split.
Qed.

(** X10: what a caller gets with [CopyCharArray] out of the buffers of a
    call that has returned, when [max_num_data] leaves room for it: the
    chars of the received label, and those of the received data, up to the
    first NUL if there is one among them, NUL-terminated, and their count.
    Data bytes after a zero byte are not copied. *)
Theorem copy_of_returned (bl bd : Z -> Z) (uninit : Z) (rx : list (option Z))
    (tx : list Z) (v : Z) (st : state) (rx' : list (option Z))
    (target : Z -> Z) (max_num_data : Z) (fuel : nat) :
  SerialReceiveAndParsePacket bl bd uninit rx tx = Returned v st rx' ->
  (len (cstr (plabel (packet_of v st))) <= max_num_data ->
   (List.length (cstr (plabel (packet_of v st))) < fuel)%nat ->
   fst (CopyCharArray fuel (buffer_label st) target max_num_data)
   = Some (len (cstr (plabel (packet_of v st))))
   /\ read (snd (CopyCharArray fuel (buffer_label st) target max_num_data))
        (len (cstr (plabel (packet_of v st))))
      = cstr (plabel (packet_of v st)))
  /\ (len (cstr (pdata (packet_of v st))) <= max_num_data ->
      (List.length (cstr (pdata (packet_of v st))) < fuel)%nat ->
      fst (CopyCharArray fuel (buffer_data st) target max_num_data)
      = Some (len (cstr (pdata (packet_of v st))))
      /\ read (snd (CopyCharArray fuel (buffer_data st) target max_num_data))
           (len (cstr (pdata (packet_of v st))))
         = cstr (pdata (packet_of v st))).
Proof.
  intro H.
  destruct (returned_buffers _ _ _ _ _ _ _ _ H)
    as (label & data & Ll & Ld & Rl & Rd & Zl & Zd).
  unfold packet_of. cbn [plabel pdata]. rewrite Ll, Ld, Rl, Rd.
  split; intros Hmax Hf.
  - destruct (copy_of_buffer (buffer_label st) target label max_num_data fuel
                Rl Zl Hmax Hf) as (A & B & _). now split.
  - destruct (copy_of_buffer (buffer_data st) target data max_num_data fuel
                Rd Zd Hmax Hf) as (A & B & _). now split.
Qed.

Lemma copy_of_returned_witness :
  fst (CopyCharArray 5
         (buffer_label
            (state_of (SerialReceiveAndParsePacket zeros zeros 0
                         (map Some (SerialSendInt (chars "Ts") 5 [])) [])))
         zeros 100)
  = Some 2
  /\ fst (CopyCharArray 5
            (buffer_data
               (state_of (SerialReceiveAndParsePacket zeros zeros 0
                            (map Some (SerialSendInt (chars "Ts") 5 [])) [])))
            zeros 100)
     = Some 0.
Proof.
  assert (E : SerialReceiveAndParsePacket zeros zeros 0
                (map Some (SerialSendInt (chars "Ts") 5 [])) []
              = Returned PACKET_INT
                  (state_of (SerialReceiveAndParsePacket zeros zeros 0
                               (map Some (SerialSendInt (chars "Ts") 5 []))
                               []))
                  [])
    by (vm_compute; reflexivity).
  destruct (copy_of_returned _ _ _ _ _ _ _ _ zeros 100 5%nat E) as [L D].
  destruct (L ltac:(vm_compute; discriminate) ltac:(vm_compute; lia))
    as [Lv _].
  destruct (D ltac:(vm_compute; discriminate) ltac:(vm_compute; lia))
    as [Dv _].
  split; [exact Lv | exact Dv].
Defined.

(** ** Packet sizes *)

Lemma SerialWriteLongInt_length (val : Z) (tx : list Z) :
  List.length (SerialWriteLongInt val tx) = (List.length tx + 4)%nat.
Proof.
  rewrite SerialWriteLongInt_app, length_app, SerialWriteLongInt_bytes.
  reflexivity.
Qed.

(** X11: the number of bytes each writer adds to the port depends on the
    label alone, never on the values sent: the chars of the label before
    its NUL, plus 7 for a SingleInt, 11 for an IntPair, 4 for a Char, 5 for
    a CharPair and 7 for an error number; an error text adds its own chars
    plus 6. *)
Theorem packet_sizes (text : list Z) (v1 v2 : Z) (tx : list Z) :
  List.length (SerialSendInt text v1 tx)
  = (List.length tx + List.length (cstr text) + 7)%nat
  /\ List.length (SerialSendIntPair text v1 v2 tx)
     = (List.length tx + List.length (cstr text) + 11)%nat
  /\ List.length (SerialSendChar text v1 tx)
     = (List.length tx + List.length (cstr text) + 4)%nat
  /\ List.length (SerialSendCharPair text v1 v2 tx)
     = (List.length tx + List.length (cstr text) + 5)%nat
  /\ List.length (SerialSendErrorText text tx)
     = (List.length tx + List.length (cstr text) + 6)%nat
  /\ List.length (SerialSendErrorNumAsText v1 tx)
     = (List.length tx + 7)%nat.
Proof.
  unfold SerialSendInt, SerialSendIntPair, SerialSendChar, SerialSendCharPair,
    SerialSendErrorText, SerialSendErrorNumAsText, andthen, Serial_flush.
  repeat split;
    repeat (first [ rewrite SerialWriteLongInt_length
                  | unfold Serial_write at 1; rewrite length_app
                  | unfold Serial_write_str at 1; rewrite length_app ]);
    cbn [List.length]; try change (List.length (cstr (chars "Err"))) with 3%nat;
    lia.
Qed.
